(** * advisense-dsl: arithmetic expression parser and evaluator

    A shallow embedding of [src/parser/Parser.ts], [src/ast/NumberNode.ts],
    [src/ast/BinaryOperationNode.ts] and [src/types.ts], followed by the
    properties of the parser, the evaluator, the printer and the
    (de)serialiser.

    Conventions of the embedding.
    - A JavaScript string is a [string]: a sequence of code units below 256.
    - A JavaScript number is an IEEE 754 binary64 value, a [spec_float] of
      the Standard Library with precision 53 and maximal exponent 1024; the
      arithmetic is the library's correctly rounded arithmetic.
    - A JavaScript array used as a stack ([push]/[pop] at its end) is a list
      whose head is the top of the stack; an array used as a queue ([push]
      only) is a list in insertion order.
    - [throw new Error(msg)] is the [Err] case of [result]; the constructors
      of [Error] are named after the error kinds and carry the data of the
      message. *)

From Stdlib Require Import String Ascii List ZArith NArith Lia Bool.
From Stdlib Require Import SpecFloat.
Import ListNotations.

Local Open Scope string_scope.

(* ------------------------------------------------------------------ *)
(** * The host language: numbers and the built-in functions used       *)
(* ------------------------------------------------------------------ *)

Module JS.

Definition prec : Z := 53.
Definition emax : Z := 1024.

(** The Number type. *)
Definition number : Type := spec_float.

Definition NaN : number := S754_nan.
Definition Infinity : number := S754_infinity false.
Definition zero : number := S754_zero false.

(** [x + y], [x - y], [x * y], [x / y] on two Numbers. *)
Definition add (x y : number) : number := SFadd prec emax x y.
Definition sub (x y : number) : number := SFsub prec emax x y.
Definition mul (x y : number) : number := SFmul prec emax x y.
Definition div (x y : number) : number := SFdiv prec emax x y.

(** [Number::equal] (used by [===]) and [Number::lessThan] with an
    undefined result (a NaN operand) read as false (used by [<], [>]). *)
Definition equal (x y : number) : bool := SFeqb x y.
Definition lessThan (x y : number) : bool := SFltb x y.

(** The Number nearest to [m * 10^p] (ties to even). *)
Definition of_decimal (m : N) (p : Z) : number :=
  match m with
  | N0 => S754_zero false
  | Npos q =>
      match p with
      | Zneg d => SFdiv prec emax (S754_finite false q 0)
                                  (S754_finite false (10 ^ d)%positive 0)
      | _ => binary_normalize prec emax (Zpos q * 10 ^ p) 0 false
      end
  end.

Definition of_Z (z : Z) : number := binary_normalize prec emax z 0 false.

Definition isDigit (c : ascii) : bool :=
  let n := N_of_ascii c in ((48 <=? n) && (n <=? 57))%N.

(** The longest prefix of decimal digits, and what follows it. *)
Fixpoint span_digits (s : string) : string * string :=
  match s with
  | String c s' =>
      if isDigit c
      then let (d, r) := span_digits s' in (String c d, r)
      else (EmptyString, s)
  | EmptyString => (EmptyString, EmptyString)
  end.

(** The value of a string of decimal digits, most significant first. *)
Fixpoint digits_value (acc : N) (s : string) : N :=
  match s with
  | String c s' => digits_value (10 * acc + (N_of_ascii c - 48))%N s'
  | EmptyString => acc
  end.

(** [parseFloat(s)] for an argument over the characters [0-9.], the only
    ones the tokenizer passes: the longest prefix that is a decimal
    literal ([digits], [digits.], [digits.digits] or [.digits]) is
    converted, the rest is ignored; without such a prefix the result is
    NaN. *)
Definition parseFloat (s : string) : number :=
  let (ip, r) := span_digits s in
  let fp := match r with
            | String "."%char r' => fst (span_digits r')
            | _ => EmptyString
            end in
  if ((String.length ip =? 0) && (String.length fp =? 0))%nat then NaN
  else of_decimal (digits_value 0 (ip ++ fp)) (- Z.of_nat (String.length fp)).

(** ** [Number.prototype.toString()] (radix 10) *)

Definition digit_char (d : N) : ascii := ascii_of_N (48 + d).

Fixpoint digits_of (fuel : nat) (n : N) (acc : string) : string :=
  match fuel with
  | O => acc
  | S f =>
      let acc' := String (digit_char (n mod 10)) acc in
      if (n / 10 =? 0)%N then acc' else digits_of f (n / 10)%N acc'
  end.

(** The decimal digits of a natural number. *)
Definition N_toString (n : N) : string :=
  digits_of (S (N.to_nat (N.log2 n))) n EmptyString.

Fixpoint zeros (n : nat) : string :=
  match n with
  | O => EmptyString
  | S n' => String "0"%char (zeros n')
  end.

(** A positive rational as numerator and denominator. *)
Definition exact (m : positive) (e : Z) : Z * Z :=
  match e with
  | Zneg d => (Zpos m, 2 ^ Zpos d)%Z
  | _ => (Zpos m * 2 ^ e, 1)%Z
  end.

Definition scale10 (q : Z * Z) (p : Z) : Z * Z :=
  match p with
  | Zneg d => (fst q, snd q * 10 ^ Zpos d)%Z
  | _ => (fst q * 10 ^ p, snd q)%Z
  end.

(** The least [n], from [n] on, with [q < 10^n]. *)
Fixpoint magnitude (fuel : nat) (q : Z * Z) (n : Z) : Z :=
  match fuel with
  | O => n
  | S f =>
      let (a, b) := scale10 q (- n) in
      if (a <? b)%Z then n else magnitude f q (n + 1)%Z
  end.

Definition same (x y : number) : bool :=
  match x, y with
  | S754_finite sx mx ex, S754_finite sy my ey =>
      Bool.eqb sx sy && Pos.eqb mx my && Z.eqb ex ey
  | S754_zero sx, S754_zero sy => Bool.eqb sx sy
  | S754_infinity sx, S754_infinity sy => Bool.eqb sx sy
  | S754_nan, S754_nan => true
  | _, _ => false
  end.

(** The shortest digit string [s], of [k] digits, and the exponent [n]
    such that [s * 10^(n-k)] converts to [x]; of two such strings the one
    nearest to [x], then the even one. *)
Fixpoint shortest (fuel : nat) (x : number) (q : Z * Z) (n0 k : Z)
  : N * Z :=
  match fuel with
  | O => (0%N, n0)
  | S f =>
      let (a, b) := scale10 q (k - n0) in
      let lo := Z.to_N (a / b) in
      let hi := (lo + 1)%N in
      let r := (a mod b)%Z in
      let ok_lo := same (of_decimal lo (n0 - k)) x in
      let ok_hi := same (of_decimal hi (n0 - k)) x in
      let pick :=
        if ok_lo && ok_hi then
          match (2 * r ?= b)%Z with
          | Lt => Some lo
          | Gt => Some hi
          | Eq => Some (if N.even lo then lo else hi)
          end
        else if ok_lo then Some lo
        else if ok_hi then Some hi
        else None in
      match pick with
      | Some s => if (s =? 10 ^ Z.to_N k)%N then (1%N, n0 + 1)%Z else (s, n0)
      | None => shortest f x q n0 (k + 1)%Z
      end
  end.

Definition format (s : N) (n : Z) : string :=
  let ds := N_toString s in
  let k := Z.of_nat (String.length ds) in
  if ((k <=? n) && (n <=? 21))%Z then ds ++ zeros (Z.to_nat (n - k))
  else if ((0 <? n) && (n <=? 21))%Z then
    substring 0 (Z.to_nat n) ds ++ "." ++
    substring (Z.to_nat n) (Z.to_nat (k - n)) ds
  else if ((-6 <? n) && (n <=? 0))%Z then
    "0." ++ zeros (Z.to_nat (- n)) ++ ds
  else
    let e := (n - 1)%Z in
    let es := (if (e <? 0)%Z then "-" else "+") ++ N_toString (Z.abs_N e) in
    if (k =? 1)%Z then ds ++ "e" ++ es
    else substring 0 1 ds ++ "." ++ substring 1 (Z.to_nat (k - 1)) ds
         ++ "e" ++ es.

Definition toString (x : number) : string :=
  match x with
  | S754_nan => "NaN"
  | S754_zero _ => "0"
  | S754_infinity s => if s then "-Infinity" else "Infinity"
  | S754_finite s m e =>
      let q := exact m e in
      let n0 := magnitude 640 q (-324) in
      let (d, n) := shortest 17 (S754_finite false m e) q n0 1 in
      (if s then "-" else EmptyString) ++ format d n
  end.

(** [/\s/] on a code unit below 256: tab, line feed, vertical tab, form
    feed, carriage return, space and no-break space. *)
Definition isWhiteSpace (c : ascii) : bool :=
  let n := N_of_ascii c in
  (((9 <=? n) && (n <=? 13)) || (n =? 32) || (n =? 160))%N.

(** [s.replace(/\s+/g, '')]. *)
Fixpoint removeWhiteSpace (s : string) : string :=
  match s with
  | String c s' =>
      if isWhiteSpace c then removeWhiteSpace s'
      else String c (removeWhiteSpace s')
  | EmptyString => EmptyString
  end.

End JS.

(* ------------------------------------------------------------------ *)
(** * Errors                                                            *)
(* ------------------------------------------------------------------ *)

(** The errors thrown by the program, one constructor per message:
    - [InvalidParentheses]:   'Invalid or mismatched parentheses'
    - [UnexpectedToken c i]:  `Unexpected token '${c}' at position ${i}`
    - [InvalidOperatorStack]: 'Invalid operator stack state'
    - [InsufficientOperands]: 'Invalid expression: not enough operands for operator'
    - [InvalidExpression]:    'Invalid expression'
    - [DivisionByZero]:       'Division by zero'
    - [UnknownOperator op]:   `Unknown operator: ${op}`
    - [UnrecognizedNodeType]: 'Unrecognized serialized node type' *)
Inductive Error : Type :=
  | InvalidParentheses
  | UnexpectedToken (c : ascii) (i : nat)
  | InvalidOperatorStack
  | InsufficientOperands
  | InvalidExpression
  | DivisionByZero
  | UnknownOperator (op : string)
  | UnrecognizedNodeType.

Inductive result (A : Type) : Type :=
  | Ok (a : A)
  | Err (e : Error).

Arguments Ok {A} a.
Arguments Err {A} e.

Definition bind {A B : Type} (r : result A) (k : A -> result B) : result B :=
  match r with
  | Ok a => k a
  | Err e => Err e
  end.

Notation "x <- r ;; k" := (bind r (fun x => k))
  (at level 61, r at next level, right associativity).

(* ------------------------------------------------------------------ *)
(** * types.ts, NumberNode.ts, BinaryOperationNode.ts                  *)
(* ------------------------------------------------------------------ *)

(** [Operator] is a union of string literals; at run time an operator is
    the string the tree was built with. *)
Definition Operator : Type := string.

(** The two classes implementing [ASTNode]. The arguments of
    [BinaryOperationNode] are in the order of its constructor. *)
Inductive ASTNode : Type :=
  | NumberNode (value : JS.number)
  | BinaryOperationNode (left right : ASTNode) (operator : Operator).

(** [SerializedASTNode]; [SerializedOther] stands for an object whose
    [type] tag is outside the declared union. *)
Inductive SerializedASTNode : Type :=
  | SerializedNumber (value : JS.number)
  | SerializedBinary (operator : Operator) (left right : SerializedASTNode)
  | SerializedOther (type : string).

(** The result of [evaluate()]: [number | boolean]. *)
Inductive Value : Type :=
  | VNumber (n : JS.number)
  | VBoolean (b : bool).

(** ToNumber on a number or a boolean: the coercion applied by the
    arithmetic and the relational operators. *)
Definition ToNumber (v : Value) : JS.number :=
  match v with
  | VNumber n => n
  | VBoolean true => JS.of_Z 1
  | VBoolean false => JS.zero
  end.

(** [a === b]. *)
Definition strictEquals (a b : Value) : bool :=
  match a, b with
  | VNumber x, VNumber y => JS.equal x y
  | VBoolean x, VBoolean y => Bool.eqb x y
  | _, _ => false
  end.

(** [NumberNode.evaluate] and [BinaryOperationNode.evaluate]. *)
Fixpoint evaluate (t : ASTNode) : result Value :=
  match t with
  | NumberNode value => Ok (VNumber value)
  | BinaryOperationNode leftNode rightNode operator =>
      leftVal <- evaluate leftNode ;;
      rightVal <- evaluate rightNode ;;
      if operator =? "+" then
        Ok (VNumber (JS.add (ToNumber leftVal) (ToNumber rightVal)))
      else if operator =? "-" then
        Ok (VNumber (JS.sub (ToNumber leftVal) (ToNumber rightVal)))
      else if operator =? "*" then
        Ok (VNumber (JS.mul (ToNumber leftVal) (ToNumber rightVal)))
      else if operator =? "/" then
        if strictEquals rightVal (VNumber JS.zero) then Err DivisionByZero
        else Ok (VNumber (JS.div (ToNumber leftVal) (ToNumber rightVal)))
      else if operator =? "<" then
        Ok (VBoolean (JS.lessThan (ToNumber leftVal) (ToNumber rightVal)))
      else if operator =? ">" then
        Ok (VBoolean (JS.lessThan (ToNumber rightVal) (ToNumber leftVal)))
      else if operator =? "=" then
        Ok (VBoolean (strictEquals leftVal rightVal))
      else Err (UnknownOperator operator)
  end.

(** [NumberNode.print] and [BinaryOperationNode.print]. *)
Fixpoint print (t : ASTNode) : string :=
  match t with
  | NumberNode value => JS.toString value
  | BinaryOperationNode leftNode rightNode operator =>
      "(" ++ print leftNode ++ " " ++ operator ++ " " ++ print rightNode ++ ")"
  end.

(** [NumberNode.serialize] and [BinaryOperationNode.serialize]. *)
Fixpoint serialize (t : ASTNode) : SerializedASTNode :=
  match t with
  | NumberNode value => SerializedNumber value
  | BinaryOperationNode leftNode rightNode operator =>
      SerializedBinary operator (serialize leftNode) (serialize rightNode)
  end.

(* ------------------------------------------------------------------ *)
(** * Parser.ts                                                        *)
(* ------------------------------------------------------------------ *)

(** A token: [number | string]. *)
Inductive Token : Type :=
  | TNum (v : JS.number)
  | TStr (s : string).

Module Parser.

(** [closeToOpen[c]] for [closeToOpen = { ')': '(' }]. *)
Definition closeToOpen (c : ascii) : option ascii :=
  if Ascii.eqb c ")" then Some "("%char else None.

(** The loop of [isValid] over the characters left, with the stack of
    open parentheses. *)
Fixpoint isValid_loop (s : string) (stack : list ascii) : bool :=
  match s with
  | String c s' =>
      if Ascii.eqb c "(" then isValid_loop s' (c :: stack)
      else
        match closeToOpen c with
        | Some o =>
            match stack with
            | top :: stack' =>
                if Ascii.eqb top o then isValid_loop s' stack' else false
            | [] => false
            end
        | None => isValid_loop s' stack
        end
  | EmptyString => (List.length stack =? 0)%nat
  end.

Definition isValid (s : string) : bool := isValid_loop s [].

(** [/[0-9.]/.test(c)] *)
Definition isNumberChar (c : ascii) : bool :=
  JS.isDigit c || Ascii.eqb c ".".

(** [/[+\-*/()<>=]/.test(c)] *)
Definition isSymbolChar (c : ascii) : bool :=
  Ascii.eqb c "+" || Ascii.eqb c "-" || Ascii.eqb c "*" || Ascii.eqb c "/"
  || Ascii.eqb c "(" || Ascii.eqb c ")"
  || Ascii.eqb c "<" || Ascii.eqb c ">" || Ascii.eqb c "=".

(** [tokenize]: the outer loop on the characters from position [i] on,
    [res] being the tokens pushed so far; the inner loop [scan] collects
    the run of number characters into [num], which starts with the
    character [c] the outer loop has just tested. *)
Fixpoint tokenize_from (s : string) (i : nat) (res : list Token)
  {struct s} : result (list Token) :=
  match s with
  | EmptyString => Ok res
  | String c s' =>
      if isNumberChar c then
        (fix scan (num : string) (r : string) (j : nat) {struct r}
           : result (list Token) :=
           match r with
           | String d r' =>
               if isNumberChar d
               then scan (num ++ String d EmptyString) r' (S j)
               else tokenize_from r j (res ++ [TNum (JS.parseFloat num)])%list
           | EmptyString => Ok (res ++ [TNum (JS.parseFloat num)])%list
           end) (String c EmptyString) s' (S i)
      else if isSymbolChar c then
        tokenize_from s' (S i) (res ++ [TStr (String c EmptyString)])%list
      else Err (UnexpectedToken c i)
  end.

(** The inner loop of [tokenize_from] on its own: [r] is what is left of
    the input, [j] its position. *)
Definition scan (res : list Token) :=
  fix scan (num : string) (r : string) (j : nat) {struct r}
    : result (list Token) :=
    match r with
    | String d r' =>
        if isNumberChar d then scan (num ++ String d EmptyString) r' (S j)
        else tokenize_from r j (res ++ [TNum (JS.parseFloat num)])%list
    | EmptyString => Ok (res ++ [TNum (JS.parseFloat num)])%list
    end.

Definition tokenize (s : string) : result (list Token) :=
  tokenize_from s 0 [].

(** [validOpsSet.has(t)] *)
Definition isVaildOp (t : string) : bool :=
  existsb (String.eqb t) ["+"; "-"; "*"; "/"; "<"; ">"; "="].

Definition precedence (op : string) : nat :=
  if (op =? "+") || (op =? "-") then 1 else 2.

(** [!topOp] for a string popped off the operator stack. *)
Definition falsy (s : string) : bool := (s =? EmptyString).

(** The while loop of the operator case: pop the operators of higher or
    equal precedence into the output queue. *)
Fixpoint pop_operators (tk : string) (opStack : list string)
  (outputQueue : list Token) : result (list string * list Token) :=
  match opStack with
  | top :: rest =>
      if isVaildOp top && (precedence tk <=? precedence top)%nat then
        if falsy top then Err InvalidOperatorStack
        else pop_operators tk rest (outputQueue ++ [TStr top])%list
      else Ok (opStack, outputQueue)
  | [] => Ok (opStack, outputQueue)
  end.

(** The while loop of the [')'] case: pop until the top is ['(']. *)
Fixpoint pop_until_open (opStack : list string) (outputQueue : list Token)
  : result (list string * list Token) :=
  match opStack with
  | top :: rest =>
      if negb (top =? "(") then
        if falsy top then Err InvalidOperatorStack
        else pop_until_open rest (outputQueue ++ [TStr top])%list
      else Ok (opStack, outputQueue)
  | [] => Ok (opStack, outputQueue)
  end.

(** [opStack.pop()] with its result dropped. *)
Definition pop (opStack : list string) : list string :=
  match opStack with
  | _ :: rest => rest
  | [] => []
  end.

(** One iteration of the Shunting-Yard loop. *)
Definition shunt_step (tk : Token) (opStack : list string)
  (outputQueue : list Token) : result (list string * list Token) :=
  match tk with
  | TNum _ => Ok (opStack, (outputQueue ++ [tk])%list)
  | TStr t =>
      if isVaildOp t then
        st <- pop_operators t opStack outputQueue ;;
        Ok (t :: fst st, snd st)
      else if t =? "(" then Ok (t :: opStack, outputQueue)
      else
        st <- pop_until_open opStack outputQueue ;;
        Ok (pop (fst st), snd st)
  end.

(** The Shunting-Yard loop over the tokens. *)
Fixpoint shunt (tokens : list Token) (opStack : list string)
  (outputQueue : list Token) : result (list string * list Token) :=
  match tokens with
  | tk :: tokens' =>
      st <- shunt_step tk opStack outputQueue ;;
      shunt tokens' (fst st) (snd st)
  | [] => Ok (opStack, outputQueue)
  end.

(** The loop draining the operator stack into the output queue. *)
Fixpoint drain (opStack : list string) (outputQueue : list Token)
  : result (list Token) :=
  match opStack with
  | o :: rest =>
      if falsy o then Err InvalidOperatorStack
      else drain rest (outputQueue ++ [TStr o])%list
  | [] => Ok outputQueue
  end.

(** The loop building the tree from the output queue. *)
Fixpoint build (outputQueue : list Token) (astStack : list ASTNode)
  : result (list ASTNode) :=
  match outputQueue with
  | TNum v :: rest => build rest (NumberNode v :: astStack)
  | TStr op :: rest =>
      match astStack with
      | rightNode :: leftNode :: astStack' =>
          build rest (BinaryOperationNode leftNode rightNode op :: astStack')
      | _ => Err InsufficientOperands
      end
  | [] => Ok astStack
  end.

(** The end of [parse]: the stack must hold exactly the root. *)
Definition root (astStack : list ASTNode) : result ASTNode :=
  match astStack with
  | [node] => Ok node
  | _ => Err InvalidExpression
  end.

(** "Shunting-Yard: convert infix tokens to RPN", with the drain. *)
Definition toPostfix (tokens : list Token) : result (list Token) :=
  st <- shunt tokens [] [] ;;
  drain (fst st) (snd st).

(** "RPN -> AST: Build the expression tree", with the final check. *)
Definition toTree (outputQueue : list Token) : result ASTNode :=
  astStack <- build outputQueue [] ;;
  root astStack.

Definition parse (expr : string) : result ASTNode :=
  let s := JS.removeWhiteSpace expr in
  if negb (isValid s) then Err InvalidParentheses
  else
    tokens <- tokenize s ;;
    outputQueue <- toPostfix tokens ;;
    toTree outputQueue.

Fixpoint deserialize (serial : SerializedASTNode) : result ASTNode :=
  match serial with
  | SerializedNumber value => Ok (NumberNode value)
  | SerializedBinary operator serialLeft serialRight =>
      leftNode <- deserialize serialLeft ;;
      rightNode <- deserialize serialRight ;;
      Ok (BinaryOperationNode leftNode rightNode operator)
  | SerializedOther _ => Err UnrecognizedNodeType
  end.

End Parser.

(* ------------------------------------------------------------------ *)
(** * Reference definitions the program is compared with               *)
(* ------------------------------------------------------------------ *)

(** ** Parenthesis balance, by counting *)

Module Balance.

(** The number of occurrences of the character [c] in [s]. *)
Fixpoint count (c : ascii) (s : string) : nat :=
  match s with
  | String d s' => (if Ascii.eqb d c then 1 else 0) + count c s'
  | EmptyString => 0
  end.

Definition opens (s : string) : nat := count "(" s.
Definition closes (s : string) : nat := count ")" s.

(** With [n] parentheses already open: a [)] that no earlier [(] is left
    to match. *)
Definition premature_from (n : nat) (s : string) : Prop :=
  exists p q, s = p ++ String ")" q /\ n + opens p <= closes p.

Definition premature_close (s : string) : Prop := premature_from 0 s.

(** No premature [)], and some [(] is never closed. *)
Definition leftover_open (s : string) : Prop :=
  ~ premature_close s /\ closes s < opens s.

Definition isParen (c : ascii) : bool :=
  Ascii.eqb c "(" || Ascii.eqb c ")".

(** The parentheses of [s], every other character dropped. *)
Fixpoint parens (s : string) : string :=
  match s with
  | String c s' => if isParen c then String c (parens s') else parens s'
  | EmptyString => EmptyString
  end.

End Balance.

(** ** The grammar of arithmetic expressions

    - Expr   ::= Term | Expr AddOp Term
    - Term   ::= Factor | Term MulOp Factor
    - Factor ::= Literal | ( Expr )

    The multiplicative operators bind tighter than the additive ones, and
    every level associates to the left. *)

Module Grammar.

(** A decimal literal: [digits] or [digits.digits], either side of the
    point possibly empty but not both. *)
Inductive Literal : Type :=
  | LInt (ip : string)
  | LDec (ip fp : string).

Inductive AddOp : Type := OpAdd | OpSub.
Inductive MulOp : Type := OpMul | OpDiv.

Inductive Expr : Type :=
  | ETerm (t : Term)
  | EBin (e : Expr) (o : AddOp) (t : Term)
with Term : Type :=
  | TFactor (f : Factor)
  | TBin (t : Term) (o : MulOp) (f : Factor)
with Factor : Type :=
  | FNum (l : Literal)
  | FParen (e : Expr).

Scheme Expr_mut := Induction for Expr Sort Prop
  with Term_mut := Induction for Term Sort Prop
  with Factor_mut := Induction for Factor Sort Prop.
Combined Scheme syntax_ind from Expr_mut, Term_mut, Factor_mut.

Fixpoint allDigits (s : string) : bool :=
  match s with
  | String c s' => JS.isDigit c && allDigits s'
  | EmptyString => true
  end.

Definition validLiteral (l : Literal) : bool :=
  match l with
  | LInt ip => allDigits ip && negb (String.length ip =? 0)%nat
  | LDec ip fp =>
      allDigits ip && allDigits fp
      && negb (String.length (ip ++ fp) =? 0)%nat
  end.

(** Every literal of the expression is a decimal literal. *)
Fixpoint wfE (e : Expr) : bool :=
  match e with
  | ETerm t => wfT t
  | EBin e o t => wfE e && wfT t
  end
with wfT (t : Term) : bool :=
  match t with
  | TFactor f => wfF f
  | TBin t o f => wfT t && wfF f
  end
with wfF (f : Factor) : bool :=
  match f with
  | FNum l => validLiteral l
  | FParen e => wfE e
  end.

Definition addSym (o : AddOp) : string :=
  match o with OpAdd => "+" | OpSub => "-" end.
Definition mulSym (o : MulOp) : string :=
  match o with OpMul => "*" | OpDiv => "/" end.

Definition showLiteral (l : Literal) : string :=
  match l with
  | LInt ip => ip
  | LDec ip fp => ip ++ "." ++ fp
  end.

(** The text of an expression, without white space. *)
Fixpoint showE (e : Expr) : string :=
  match e with
  | ETerm t => showT t
  | EBin e o t => showE e ++ addSym o ++ showT t
  end
with showT (t : Term) : string :=
  match t with
  | TFactor f => showF f
  | TBin t o f => showT t ++ mulSym o ++ showF f
  end
with showF (f : Factor) : string :=
  match f with
  | FNum l => showLiteral l
  | FParen e => "(" ++ showE e ++ ")"
  end.

(** The number a decimal literal denotes: the Number nearest to
    [digits / 10^(number of fraction digits)]. *)
Definition literalValue (l : Literal) : JS.number :=
  match l with
  | LInt ip => JS.of_decimal (JS.digits_value 0 ip) 0
  | LDec ip fp =>
      JS.of_decimal (JS.digits_value 0 (ip ++ fp))
                    (- Z.of_nat (String.length fp))
  end.

Definition applyAdd (o : AddOp) (x y : JS.number) : JS.number :=
  match o with OpAdd => JS.add x y | OpSub => JS.sub x y end.
Definition applyMul (o : MulOp) (x y : JS.number) : JS.number :=
  match o with OpMul => JS.mul x y | OpDiv => JS.div x y end.

(** The value of an expression: each operator applied to the values of
    its two operands, following the grammar. *)
Fixpoint valueE (e : Expr) : JS.number :=
  match e with
  | ETerm t => valueT t
  | EBin e o t => applyAdd o (valueE e) (valueT t)
  end
with valueT (t : Term) : JS.number :=
  match t with
  | TFactor f => valueF f
  | TBin t o f => applyMul o (valueT t) (valueF f)
  end
with valueF (f : Factor) : JS.number :=
  match f with
  | FNum l => literalValue l
  | FParen e => valueE e
  end.

Definition isZero (x : JS.number) : bool :=
  match x with S754_zero _ => true | _ => false end.

(** No division of the expression has a right operand of value 0. *)
Fixpoint safeE (e : Expr) : bool :=
  match e with
  | ETerm t => safeT t
  | EBin e o t => safeE e && safeT t
  end
with safeT (t : Term) : bool :=
  match t with
  | TFactor f => safeF f
  | TBin t o f =>
      safeT t && safeF f
      && match o with OpDiv => negb (isZero (valueF f)) | OpMul => true end
  end
with safeF (f : Factor) : bool :=
  match f with
  | FNum l => true
  | FParen e => safeE e
  end.

(** The tree of an expression: one binary node per operator, the left
    operand on the left. *)
Fixpoint treeE (e : Expr) : ASTNode :=
  match e with
  | ETerm t => treeT t
  | EBin e o t => BinaryOperationNode (treeE e) (treeT t) (addSym o)
  end
with treeT (t : Term) : ASTNode :=
  match t with
  | TFactor f => treeF f
  | TBin t o f => BinaryOperationNode (treeT t) (treeF f) (mulSym o)
  end
with treeF (f : Factor) : ASTNode :=
  match f with
  | FNum l => NumberNode (literalValue l)
  | FParen e => treeE e
  end.

(** The tokens of an expression. *)
Fixpoint tokensE (e : Expr) : list Token :=
  match e with
  | ETerm t => tokensT t
  | EBin e o t => tokensE e ++ TStr (addSym o) :: tokensT t
  end
with tokensT (t : Term) : list Token :=
  match t with
  | TFactor f => tokensF f
  | TBin t o f => tokensT t ++ TStr (mulSym o) :: tokensF f
  end
with tokensF (f : Factor) : list Token :=
  match f with
  | FNum l => [TNum (literalValue l)]
  | FParen e => TStr "(" :: tokensE e ++ [TStr ")"]
  end.

(** The postfix form of an expression. *)
Fixpoint postfixE (e : Expr) : list Token :=
  match e with
  | ETerm t => postfixT t
  | EBin e o t => postfixE e ++ postfixT t ++ [TStr (addSym o)]
  end
with postfixT (t : Term) : list Token :=
  match t with
  | TFactor f => postfixF f
  | TBin t o f => postfixT t ++ postfixF f ++ [TStr (mulSym o)]
  end
with postfixF (f : Factor) : list Token :=
  match f with
  | FNum l => [TNum (literalValue l)]
  | FParen e => postfixE e
  end.

(** The operators still on the stack once the tokens of a term, or of an
    expression, have been read: the last operator of each level. *)
Definition pendingT (t : Term) : list string :=
  match t with
  | TFactor _ => []
  | TBin _ o _ => [mulSym o]
  end.

Definition pendingE (e : Expr) : list string :=
  match e with
  | ETerm t => pendingT t
  | EBin _ o t => pendingT t ++ [addSym o]
  end.

(** The output queue at that point. *)
Definition emittedT (t : Term) : list Token :=
  match t with
  | TFactor f => postfixF f
  | TBin t o f => postfixT t ++ postfixF f
  end.

Definition emittedE (e : Expr) : list Token :=
  match e with
  | ETerm t => emittedT t
  | EBin e o t => postfixE e ++ emittedT t
  end.

End Grammar.

Import Balance Grammar.

(** The expression [3+4*2/(1-5)+7] of the grammar. *)
Definition example_expr : Expr :=
  let num s := FNum (LInt s) in
  EBin
    (EBin (ETerm (TFactor (num "3"))) OpAdd
          (TBin (TBin (TFactor (num "4")) OpMul (num "2")) OpDiv
                (FParen (EBin (ETerm (TFactor (num "1"))) OpSub
                              (TFactor (num "5"))))))
    OpAdd (TFactor (num "7")).

(** The trees of [0 - 1] and of [2 = 3]. *)
Definition minus_one : ASTNode :=
  BinaryOperationNode (NumberNode (JS.of_Z 0)) (NumberNode (JS.of_Z 1)) "-".

Definition two_equals_three : ASTNode :=
  BinaryOperationNode (NumberNode (JS.of_Z 2)) (NumberNode (JS.of_Z 3)) "=".

(** The first character of [s], if any, is not a number character. *)
Definition startsClean (s : string) : bool :=
  match s with
  | String c _ => negb (Parser.isNumberChar c)
  | EmptyString => true
  end.

(** The first character of [s], if any, is not a digit. *)
Definition startsNoDigit (s : string) : bool :=
  match s with
  | String c _ => negb (JS.isDigit c)
  | EmptyString => true
  end.

(** The top of the operator stack, if any, is not an operator: the stack
    is empty or its top is a parenthesis. *)
Definition baseStack (opStack : list string) : bool :=
  match opStack with
  | top :: _ => negb (Parser.isVaildOp top)
  | [] => true
  end.

(** The top of the operator stack, if any, is not an operator of
    precedence 2. *)
Definition lowStack (opStack : list string) : bool :=
  match opStack with
  | top :: _ => negb (Parser.isVaildOp top && (2 <=? Parser.precedence top)%nat)
  | [] => true
  end.

Fixpoint allNumberChars (s : string) : bool :=
  match s with
  | String c s' => Parser.isNumberChar c && allNumberChars s'
  | EmptyString => true
  end.

(** A string of [n] points. *)
Fixpoint dots (n : nat) : string :=
  match n with
  | O => EmptyString
  | S n' => String "." (dots n')
  end.

(** The error, if any, satisfies [P]. *)
Definition failsOnlyWith {A : Type} (P : Error -> Prop) (r : result A) : Prop :=
  match r with
  | Ok _ => True
  | Err e => P e
  end.

(* ------------------------------------------------------------------ *)
(** * Definitions for the further properties                           *)
(* ------------------------------------------------------------------ *)

(** The character is one the tokenizer accepts. *)
Definition accepted (c : ascii) : bool :=
  Parser.isNumberChar c || Parser.isSymbolChar c.

Fixpoint allAccepted (s : string) : bool :=
  match s with
  | String c s' => accepted c && allAccepted s'
  | EmptyString => true
  end.

(** The token is a number, an operator or a parenthesis. *)
Definition tokenOK (tk : Token) : bool :=
  match tk with
  | TNum _ => true
  | TStr t => Parser.isVaildOp t || (t =? "(") || (t =? ")")
  end.

(** The parentheses among the tokens are balanced, [depth] of them being
    open already. *)
Fixpoint balancedTokens (tokens : list Token) (depth : nat) : bool :=
  match tokens with
  | TNum _ :: rest => balancedTokens rest depth
  | TStr t :: rest =>
      if t =? "(" then balancedTokens rest (S depth)
      else if t =? ")" then
        match depth with
        | S d => balancedTokens rest d
        | O => false
        end
      else balancedTokens rest depth
  | [] => (depth =? 0)%nat
  end.

(** The number of opening parentheses on the operator stack. *)
Definition parenDepth (opStack : list string) : nat :=
  List.length (filter (fun s => s =? "(") opStack).

(** The operator stack holds operators and opening parentheses only. *)
Definition stackOK (opStack : list string) : bool :=
  forallb (fun s => Parser.isVaildOp s || (s =? "(")) opStack.

(** The output queue holds numbers and operators only. *)
Definition queueOK (outputQueue : list Token) : bool :=
  forallb (fun tk => match tk with
                     | TNum _ => true
                     | TStr s => Parser.isVaildOp s
                     end) outputQueue.

(** Every operator of the tree is one of the seven of [Operator]. *)
Fixpoint validOperators (t : ASTNode) : bool :=
  match t with
  | NumberNode _ => true
  | BinaryOperationNode l r op =>
      Parser.isVaildOp op && validOperators l && validOperators r
  end.

(** The numbers among the tokens, in order. *)
Fixpoint numbers (tokens : list Token) : list JS.number :=
  match tokens with
  | TNum v :: rest => v :: numbers rest
  | TStr _ :: rest => numbers rest
  | [] => []
  end.

(** The number of operator tokens. *)
Fixpoint countOps (tokens : list Token) : nat :=
  match tokens with
  | TStr t :: rest => (if Parser.isVaildOp t then 1 else 0) + countOps rest
  | TNum _ :: rest => countOps rest
  | [] => 0
  end.

(** The values of the number nodes of a tree, from left to right. *)
Fixpoint leaves (t : ASTNode) : list JS.number :=
  match t with
  | NumberNode v => [v]
  | BinaryOperationNode l r _ => leaves l ++ leaves r
  end.

(** The number of binary nodes of a tree. *)
Fixpoint nodes (t : ASTNode) : nat :=
  match t with
  | NumberNode _ => 0
  | BinaryOperationNode l r _ => S (nodes l + nodes r)
  end.

(** The postfix form of a tree: left operand, right operand, operator. *)
Fixpoint postorder (t : ASTNode) : list Token :=
  match t with
  | NumberNode v => [TNum v]
  | BinaryOperationNode l r op => postorder l ++ postorder r ++ [TStr op]
  end.

(** Every node of the serialized tree carries one of the two tags of
    [SerializedASTNode]. *)
Fixpoint recognized (serial : SerializedASTNode) : bool :=
  match serial with
  | SerializedNumber _ => true
  | SerializedBinary _ l r => recognized l && recognized r
  | SerializedOther _ => false
  end.

(** [s] is [t] or one of the operands, at any depth, of [t]. *)
Inductive subtree (s : ASTNode) : ASTNode -> Prop :=
  | subtree_here : subtree s s
  | subtree_left (l r : ASTNode) (op : Operator) :
      subtree s l -> subtree s (BinaryOperationNode l r op)
  | subtree_right (l r : ASTNode) (op : Operator) :
      subtree s r -> subtree s (BinaryOperationNode l r op).

Fixpoint allWhiteSpace (s : string) : bool :=
  match s with
  | String c s' => JS.isWhiteSpace c && allWhiteSpace s'
  | EmptyString => true
  end.

(** The printed form of the number is a run of the characters [0-9.] that
    [parseFloat] reads back as the number. *)
Definition reparses (v : JS.number) : bool :=
  allNumberChars (JS.toString v)
  && negb (String.length (JS.toString v) =? 0)%nat
  && JS.same (JS.parseFloat (JS.toString v)) v.

(** The operators of the tree are among the seven and its numbers are
    read back from their printed form. *)
Fixpoint printable (t : ASTNode) : bool :=
  match t with
  | NumberNode v => reparses v
  | BinaryOperationNode l r op =>
      Parser.isVaildOp op && printable l && printable r
  end.

(** The printed form of a tree without its spaces. *)
Fixpoint compact (t : ASTNode) : string :=
  match t with
  | NumberNode v => JS.toString v
  | BinaryOperationNode l r op =>
      "(" ++ compact l ++ op ++ compact r ++ ")"
  end.

(** The tokens of the printed form of a tree. *)
Fixpoint infixTokens (t : ASTNode) : list Token :=
  match t with
  | NumberNode v => [TNum v]
  | BinaryOperationNode l r op =>
      TStr "(" :: infixTokens l ++ TStr op :: infixTokens r ++ [TStr ")"]
  end.

(** The comparison operators, their symbols and what they compute on two
    numbers. *)
Inductive CmpOp : Type := OpLt | OpGt | OpEq.

Definition cmpSym (o : CmpOp) : string :=
  match o with OpLt => "<" | OpGt => ">" | OpEq => "=" end.

Definition applyCmp (o : CmpOp) (x y : JS.number) : bool :=
  match o with
  | OpLt => JS.lessThan x y
  | OpGt => JS.lessThan y x
  | OpEq => JS.equal x y
  end.

Arguments JS.isDigit : simpl never.
Arguments JS.parseFloat : simpl never.
Arguments JS.of_decimal : simpl never.
Arguments JS.toString : simpl never.
Arguments JS.add : simpl never.
Arguments JS.sub : simpl never.
Arguments JS.mul : simpl never.
Arguments JS.div : simpl never.
Arguments JS.equal : simpl never.
Arguments JS.lessThan : simpl never.
Arguments Parser.isNumberChar : simpl never.
Arguments Parser.isSymbolChar : simpl never.
Arguments Parser.tokenize_from : simpl never.
Arguments Parser.scan : simpl never.

(* ------------------------------------------------------------------ *)
(** * Strings                                                          *)
(* ------------------------------------------------------------------ *)

Lemma string_app_assoc (a b c : string) : (a ++ b) ++ c = a ++ (b ++ c).
Proof.
  induction a as [|x a IH]; simpl; [reflexivity | now rewrite IH].
Qed.

Lemma string_app_nil_r (a : string) : a ++ EmptyString = a.
Proof.
  induction a as [|x a IH]; simpl; [reflexivity | now rewrite IH].
Qed.

Lemma string_length_app (a b : string) :
  String.length (a ++ b) = String.length a + String.length b.
Proof.
  induction a as [|x a IH]; simpl; [reflexivity | now rewrite IH].
Qed.

Lemma string_app_cons_split (p : string) (c d : ascii) (s q : string) :
  String d s = p ++ String c q ->
  (p = EmptyString /\ d = c /\ s = q) \/ (exists p', p = String d p' /\ s = p' ++ String c q).
Proof.
  destruct p as [|x p']; simpl; intros H; inversion H; subst.
  - left; auto.
  - right; exists p'; auto.
Qed.

(* ------------------------------------------------------------------ *)
(** * isValid                                                          *)
(* ------------------------------------------------------------------ *)

Lemma count_app (c : ascii) (a b : string) :
  count c (a ++ b) = count c a + count c b.
Proof.
  induction a as [|x a IH]; simpl; [reflexivity | rewrite IH; lia].
Qed.

Lemma premature_from_nil (n : nat) : ~ premature_from n EmptyString.
Proof.
  intros (p & q & H & _). destruct p; discriminate.
Qed.

(** A character other than [)] in front changes the count of open
    parentheses by [k] (1 for [(], 0 otherwise). *)
Lemma premature_from_skip (n k : nat) (d : ascii) (s : string) :
  Ascii.eqb d ")" = false ->
  k = (if Ascii.eqb d "(" then 1 else 0) ->
  premature_from n (String d s) <-> premature_from (n + k) s.
Proof.
  intros Hd Hk. unfold premature_from, opens, closes. split.
  - intros (p & q & H & Hle).
    apply string_app_cons_split in H as [(-> & -> & ->) | (p' & -> & ->)].
    + rewrite Ascii.eqb_refl in Hd. discriminate.
    + exists p', q. split; [reflexivity|].
      simpl in Hle. rewrite Hd in Hle. lia.
  - intros (p & q & -> & Hle).
    exists (String d p), q. split; [reflexivity|].
    simpl. rewrite Hd. lia.
Qed.

Lemma premature_from_close (n : nat) (s : string) :
  premature_from (S n) (String ")" s) <-> premature_from n s.
Proof.
  unfold premature_from, opens, closes. split.
  - intros (p & q & H & Hle).
    apply string_app_cons_split in H as [(-> & _ & ->) | (p' & -> & ->)].
    + simpl in Hle. lia.
    + exists p', q. split; [reflexivity|]. simpl in Hle. lia.
  - intros (p & q & -> & Hle).
    exists (String ")" p), q. split; [reflexivity|]. simpl. lia.
Qed.

Lemma premature_from_close_0 (s : string) : premature_from 0 (String ")" s).
Proof.
  exists EmptyString, s. split; [reflexivity | unfold opens, closes; simpl; lia].
Qed.

(** What the loop of [isValid] answers, with a stack of open parentheses. *)
Lemma isValid_loop_spec (s : string) :
  forall stack : list ascii,
    Forall (eq "("%char) stack ->
    if Parser.isValid_loop s stack
    then ~ premature_from (List.length stack) s
         /\ List.length stack + opens s = closes s
    else premature_from (List.length stack) s
         \/ (~ premature_from (List.length stack) s
             /\ closes s < List.length stack + opens s).
Proof.
  induction s as [|c s IH]; intros stack Hst.
  - simpl. destruct stack as [|x stack]; simpl.
    + split; [apply premature_from_nil | reflexivity].
    + right. split; [apply premature_from_nil | unfold closes, opens; simpl; lia].
  - simpl. destruct (Ascii.eqb c "(") eqn:Hopen.
    + apply Ascii.eqb_eq in Hopen. subst c.
      specialize (IH ("("%char :: stack) (Forall_cons _ eq_refl Hst)).
      assert (E : premature_from (List.length stack) (String "(" s)
                  <-> premature_from (S (List.length stack)) s).
      { rewrite (premature_from_skip (List.length stack) 1 "(" s);
          [rewrite Nat.add_1_r; reflexivity | reflexivity | reflexivity]. }
      unfold opens, closes in *. simpl in *.
      destruct (Parser.isValid_loop s ("("%char :: stack)).
      * destruct IH as [IH1 IH2]. split; [rewrite E; exact IH1 | lia].
      * destruct IH as [IH | [IH1 IH2]].
        -- left. rewrite E. exact IH.
        -- right. split; [rewrite E; exact IH1 | lia].
    + unfold Parser.closeToOpen. destruct (Ascii.eqb c ")") eqn:Hclose.
      * apply Ascii.eqb_eq in Hclose. subst c.
        destruct stack as [|top stack].
        -- left. apply premature_from_close_0.
        -- inversion Hst as [|? ? Htop Hst']; subst.
           simpl. specialize (IH stack Hst').
           unfold opens, closes in *. simpl.
           destruct (Parser.isValid_loop s stack).
           ++ destruct IH as [IH1 IH2].
              split; [rewrite premature_from_close; exact IH1 | lia].
           ++ destruct IH as [IH | [IH1 IH2]].
              ** left. rewrite premature_from_close. exact IH.
              ** right. split; [rewrite premature_from_close; exact IH1 | lia].
      * specialize (IH stack Hst).
        assert (E : premature_from (List.length stack) (String c s)
                    <-> premature_from (List.length stack) s).
        { rewrite (premature_from_skip (List.length stack) 0 c s);
            [rewrite Nat.add_0_r; reflexivity | exact Hclose
            | rewrite Hopen; reflexivity]. }
        unfold opens, closes in *. simpl. rewrite Hopen, Hclose. simpl.
        destruct (Parser.isValid_loop s stack).
        -- destruct IH as [IH1 IH2]. split; [rewrite E; exact IH1 | lia].
        -- destruct IH as [IH | [IH1 IH2]].
           ++ left. rewrite E. exact IH.
           ++ right. split; [rewrite E; exact IH1 | lia].
Qed.

Lemma isValid_false_iff (s : string) :
  Parser.isValid s = false <-> premature_close s \/ leftover_open s.
Proof.
  unfold Parser.isValid, premature_close, leftover_open.
  pose proof (isValid_loop_spec s [] (Forall_nil _)) as H. simpl in H.
  destruct (Parser.isValid_loop s []).
  - destruct H as [H1 H2]. split; [discriminate|].
    intros [Hp | [_ Hl]]; [contradiction | lia].
  - split; [intros _ | reflexivity].
    destruct H as [H | [H1 H2]]; [left; exact H | right; split; assumption].
Qed.

Lemma isValid_loop_parens (s : string) :
  forall stack, Parser.isValid_loop (parens s) stack = Parser.isValid_loop s stack.
Proof.
  induction s as [|c s IH]; intros stack; [reflexivity|].
  simpl. unfold isParen, Parser.closeToOpen.
  destruct (Ascii.eqb c "(") eqn:Hopen; simpl.
  - rewrite Hopen. apply IH.
  - destruct (Ascii.eqb c ")") eqn:Hclose; simpl.
    + rewrite Hopen. unfold Parser.closeToOpen. rewrite Hclose.
      destruct stack as [|top stack]; [reflexivity|].
      destruct (Ascii.eqb top "("); [apply IH | reflexivity].
    + apply IH.
Qed.

(* ------------------------------------------------------------------ *)
(** * parseFloat                                                       *)
(* ------------------------------------------------------------------ *)

Lemma span_digits_app (d rest : string) :
  allDigits d = true -> startsNoDigit rest = true ->
  JS.span_digits (d ++ rest) = (d, rest).
Proof.
  intros Hd Hr. induction d as [|c d IH]; simpl in *.
  - destruct rest as [|x rest]; [reflexivity|].
    simpl in *. apply negb_true_iff in Hr. now rewrite Hr.
  - apply andb_true_iff in Hd as [Hc Hd]. rewrite Hc, (IH Hd). reflexivity.
Qed.

Lemma span_digits_all (d : string) :
  allDigits d = true -> JS.span_digits d = (d, EmptyString).
Proof.
  intros Hd. rewrite <- (string_app_nil_r d) at 1.
  now apply span_digits_app.
Qed.

Lemma parseFloat_point (ip fp tail : string) :
  allDigits ip = true -> allDigits fp = true -> startsNoDigit tail = true ->
  JS.parseFloat (ip ++ "." ++ fp ++ tail) =
  if ((String.length ip =? 0) && (String.length fp =? 0))%nat then JS.NaN
  else JS.of_decimal (JS.digits_value 0 (ip ++ fp))
                     (- Z.of_nat (String.length fp)).
Proof.
  intros Hi Hf Ht. unfold JS.parseFloat.
  rewrite (span_digits_app ip ("." ++ fp ++ tail) Hi eq_refl).
  simpl. rewrite (span_digits_app fp tail Hf Ht). reflexivity.
Qed.

(** A decimal literal is read as the number it denotes. *)
Lemma parseFloat_literal (l : Literal) :
  validLiteral l = true -> JS.parseFloat (showLiteral l) = literalValue l.
Proof.
  destruct l as [ip | ip fp]; simpl; intros H.
  - apply andb_true_iff in H as [Hd Hn]. unfold JS.parseFloat.
    rewrite (span_digits_all ip Hd). simpl.
    apply negb_true_iff in Hn. rewrite andb_true_r, Hn.
    now rewrite string_app_nil_r.
  - apply andb_true_iff in H as [H Hn].
    apply andb_true_iff in H as [Hi Hf].
    replace (ip ++ String "." fp) with (ip ++ "." ++ fp ++ EmptyString)
      by (simpl; now rewrite string_app_nil_r).
    rewrite (parseFloat_point ip fp EmptyString Hi Hf eq_refl).
    apply negb_true_iff in Hn. rewrite string_length_app in Hn.
    destruct (String.length ip), (String.length fp); simpl in *;
      try discriminate; reflexivity.
Qed.

(** What follows a second point does not count. *)
Lemma parseFloat_second_point (ip fp tail : string) :
  allDigits ip = true -> allDigits fp = true ->
  JS.parseFloat (ip ++ "." ++ fp ++ "." ++ tail) = JS.parseFloat (ip ++ "." ++ fp).
Proof.
  intros Hi Hf.
  rewrite (parseFloat_point ip fp ("." ++ tail) Hi Hf eq_refl).
  replace (ip ++ "." ++ fp) with (ip ++ "." ++ fp ++ EmptyString)
    by now rewrite string_app_nil_r.
  now rewrite (parseFloat_point ip fp EmptyString Hi Hf eq_refl).
Qed.

Lemma parseFloat_dots (n : nat) : JS.parseFloat (dots (S n)) = JS.NaN.
Proof.
  unfold JS.parseFloat. simpl. destruct n; reflexivity.
Qed.

(* ------------------------------------------------------------------ *)
(** * tokenize                                                         *)
(* ------------------------------------------------------------------ *)

Lemma tokenize_from_cons (c : ascii) (s : string) (i : nat) (res : list Token) :
  Parser.tokenize_from (String c s) i res =
  if Parser.isNumberChar c then Parser.scan res (String c EmptyString) s (S i)
  else if Parser.isSymbolChar c then
    Parser.tokenize_from s (S i) (res ++ [TStr (String c EmptyString)])
  else Err (UnexpectedToken c i).
Proof. reflexivity. Qed.

Lemma scan_cons (res : list Token) (num : string) (d : ascii) (r : string) (j : nat) :
  Parser.scan res num (String d r) j =
  if Parser.isNumberChar d then Parser.scan res (num ++ String d EmptyString) r (S j)
  else Parser.tokenize_from (String d r) j (res ++ [TNum (JS.parseFloat num)]).
Proof. reflexivity. Qed.

Lemma scan_nil (res : list Token) (num : string) (j : nat) :
  Parser.scan res num EmptyString j = Ok (res ++ [TNum (JS.parseFloat num)])%list.
Proof. reflexivity. Qed.

(** The inner loop reads a whole run of number characters and hands the
    rest of the input back to the outer loop. *)
Lemma scan_run (run rest : string) :
  allNumberChars run = true -> startsClean rest = true ->
  forall res num j,
    Parser.scan res num (run ++ rest) j =
    Parser.tokenize_from rest (j + String.length run)
      (res ++ [TNum (JS.parseFloat (num ++ run))]).
Proof.
  intros Hrun Hrest. induction run as [|c run IH]; intros res num j.
  - simpl. rewrite Nat.add_0_r, string_app_nil_r.
    destruct rest as [|d r]; [reflexivity|].
    rewrite scan_cons. simpl in Hrest. apply negb_true_iff in Hrest.
    now rewrite Hrest.
  - simpl in Hrun. apply andb_true_iff in Hrun as [Hc Hrun].
    simpl. rewrite scan_cons, Hc, (IH Hrun).
    rewrite string_app_assoc. simpl.
    now rewrite Nat.add_succ_r.
Qed.

Lemma tokenize_run (c : ascii) (run rest : string) (i : nat) (res : list Token) :
  allNumberChars (String c run) = true -> startsClean rest = true ->
  Parser.tokenize_from (String c run ++ rest) i res =
  Parser.tokenize_from rest (i + String.length (String c run))
    (res ++ [TNum (JS.parseFloat (String c run))]).
Proof.
  intros Hrun Hrest. simpl in Hrun.
  apply andb_true_iff in Hrun as [Hc Hrun].
  simpl. rewrite tokenize_from_cons, Hc, (scan_run run rest Hrun Hrest).
  simpl. now rewrite Nat.add_succ_r.
Qed.

Lemma tokenize_symbol (c : ascii) (rest : string) (i : nat) (res : list Token) :
  Parser.isNumberChar c = false -> Parser.isSymbolChar c = true ->
  Parser.tokenize_from (String c rest) i res =
  Parser.tokenize_from rest (S i) (res ++ [TStr (String c EmptyString)]).
Proof.
  intros Hn Hs. now rewrite tokenize_from_cons, Hn, Hs.
Qed.

(** The only error of the tokenizer is UnexpectedToken. *)
Lemma tokenize_from_fails (s : string) :
  (forall i res,
      failsOnlyWith (fun e => exists c j, e = UnexpectedToken c j)
                    (Parser.tokenize_from s i res))
  /\ (forall res num j,
      failsOnlyWith (fun e => exists c j, e = UnexpectedToken c j)
                    (Parser.scan res num s j)).
Proof.
  induction s as [|c s [IHt IHs]].
  - split; intros; exact I.
  - assert (Ht : forall i res,
               failsOnlyWith (fun e => exists c j, e = UnexpectedToken c j)
                             (Parser.tokenize_from (String c s) i res)).
    { intros i res. rewrite tokenize_from_cons.
      destruct (Parser.isNumberChar c); [apply IHs|].
      destruct (Parser.isSymbolChar c); [apply IHt|].
      simpl. eauto. }
    split; [exact Ht|].
    intros res num j. rewrite scan_cons.
    destruct (Parser.isNumberChar c); [apply IHs | apply Ht].
Qed.

(** ** The tokens of a well-formed expression *)

Lemma allNumberChars_digits (d : string) :
  allDigits d = true -> allNumberChars d = true.
Proof.
  induction d as [|c d IH]; simpl; [reflexivity|].
  intros H. apply andb_true_iff in H as [Hc Hd].
  unfold Parser.isNumberChar. now rewrite Hc, (IH Hd).
Qed.

Lemma allNumberChars_app (a b : string) :
  allNumberChars (a ++ b) = allNumberChars a && allNumberChars b.
Proof.
  induction a as [|c a IH]; simpl; [reflexivity|].
  now rewrite IH, andb_assoc.
Qed.

(** A decimal literal is a non-empty run of number characters. *)
Lemma showLiteral_run (l : Literal) :
  validLiteral l = true ->
  exists c run, showLiteral l = String c run
                /\ allNumberChars (String c run) = true.
Proof.
  destruct l as [ip | ip fp]; simpl; intros H.
  - apply andb_true_iff in H as [Hd Hn].
    destruct ip as [|c ip]; [discriminate|].
    exists c, ip. split; [reflexivity | exact (allNumberChars_digits _ Hd)].
  - apply andb_true_iff in H as [H Hn].
    apply andb_true_iff in H as [Hi Hf].
    assert (Hall : allNumberChars (ip ++ String "." fp) = true).
    { rewrite allNumberChars_app, (allNumberChars_digits ip Hi). simpl.
      now rewrite (allNumberChars_digits fp Hf). }
    destruct (ip ++ String "." fp) as [|c run] eqn:E.
    + destruct ip; discriminate.
    + exists c, run. split; [reflexivity | exact Hall].
Qed.

Lemma tokenize_literal (l : Literal) (rest : string) (i : nat) (res : list Token) :
  validLiteral l = true -> startsClean rest = true ->
  exists j,
    Parser.tokenize_from (showLiteral l ++ rest) i res =
    Parser.tokenize_from rest j (res ++ [TNum (literalValue l)]).
Proof.
  intros Hl Hrest.
  destruct (showLiteral_run l Hl) as (c & run & E & Hrun).
  rewrite <- (parseFloat_literal l Hl), E.
  eexists. now apply tokenize_run.
Qed.

Lemma tokenize_show :
  (forall e, wfE e = true -> forall rest i res, startsClean rest = true ->
     exists j, Parser.tokenize_from (showE e ++ rest) i res =
               Parser.tokenize_from rest j (res ++ tokensE e))
  /\ (forall t, wfT t = true -> forall rest i res, startsClean rest = true ->
     exists j, Parser.tokenize_from (showT t ++ rest) i res =
               Parser.tokenize_from rest j (res ++ tokensT t))
  /\ (forall f, wfF f = true -> forall rest i res, startsClean rest = true ->
     exists j, Parser.tokenize_from (showF f ++ rest) i res =
               Parser.tokenize_from rest j (res ++ tokensF f)).
Proof.
  apply syntax_ind.
  - intros t IH Hwf rest i res Hrest. simpl. now apply IH.
  - intros e IHe o t IHt Hwf rest i res Hrest. simpl in *.
    apply andb_true_iff in Hwf as [He Ht].
    rewrite !string_app_assoc.
    destruct (IHe He (addSym o ++ showT t ++ rest) i res) as [j1 ->];
      [destruct o; reflexivity|].
    assert (Hop : Parser.tokenize_from (addSym o ++ showT t ++ rest) j1
                    (res ++ tokensE e) =
                  Parser.tokenize_from (showT t ++ rest) (S j1)
                    ((res ++ tokensE e) ++ [TStr (addSym o)]))
      by (destruct o; apply tokenize_symbol; reflexivity).
    rewrite Hop.
    destruct (IHt Ht rest (S j1) ((res ++ tokensE e) ++ [TStr (addSym o)])%list Hrest)
      as [j2 ->].
    exists j2. f_equal. rewrite <- !app_assoc. reflexivity.
  - intros f IH Hwf rest i res Hrest. simpl. now apply IH.
  - intros t IHt o f IHf Hwf rest i res Hrest. simpl in *.
    apply andb_true_iff in Hwf as [Ht Hf].
    rewrite !string_app_assoc.
    destruct (IHt Ht (mulSym o ++ showF f ++ rest) i res) as [j1 ->];
      [destruct o; reflexivity|].
    assert (Hop : Parser.tokenize_from (mulSym o ++ showF f ++ rest) j1
                    (res ++ tokensT t) =
                  Parser.tokenize_from (showF f ++ rest) (S j1)
                    ((res ++ tokensT t) ++ [TStr (mulSym o)]))
      by (destruct o; apply tokenize_symbol; reflexivity).
    rewrite Hop.
    destruct (IHf Hf rest (S j1) ((res ++ tokensT t) ++ [TStr (mulSym o)])%list Hrest)
      as [j2 ->].
    exists j2. f_equal. rewrite <- !app_assoc. reflexivity.
  - intros l Hwf rest i res Hrest. simpl in *. now apply tokenize_literal.
  - intros e IHe Hwf rest i res Hrest. simpl in *.
    rewrite tokenize_symbol by reflexivity.
    rewrite string_app_assoc.
    destruct (IHe Hwf (")" ++ rest) (S i) (res ++ [TStr "("])%list eq_refl) as [j1 ->].
    simpl. rewrite tokenize_symbol by reflexivity.
    exists (S j1). f_equal. rewrite <- !app_assoc. reflexivity.
Qed.

Lemma tokenize_showE (e : Expr) :
  wfE e = true -> Parser.tokenize (showE e) = Ok (tokensE e).
Proof.
  intros Hwf. unfold Parser.tokenize.
  destruct (proj1 tokenize_show e Hwf EmptyString 0 [] eq_refl) as [j H].
  rewrite string_app_nil_r in H. rewrite H. reflexivity.
Qed.

(* ------------------------------------------------------------------ *)
(** * The Shunting-Yard loop                                           *)
(* ------------------------------------------------------------------ *)

Lemma shunt_app (a b : list Token) :
  forall opStack outputQueue,
    Parser.shunt (a ++ b) opStack outputQueue =
    st <- Parser.shunt a opStack outputQueue ;;
    Parser.shunt b (fst st) (snd st).
Proof.
  induction a as [|tk a IH]; intros opStack outputQueue; simpl; [reflexivity|].
  destruct (Parser.shunt_step tk opStack outputQueue) as [[stk out]|err];
    simpl; [apply IH | reflexivity].
Qed.

Lemma emitted_pendingT (t : Term) :
  (emittedT t ++ map TStr (pendingT t))%list = postfixT t.
Proof.
  destruct t; simpl; [apply app_nil_r | now rewrite <- app_assoc].
Qed.

Lemma emitted_pendingE (e : Expr) :
  (emittedE e ++ map TStr (pendingE e))%list = postfixE e.
Proof.
  destruct e as [t | e o t]; simpl; [apply emitted_pendingT|].
  rewrite map_app, <- app_assoc, (app_assoc (emittedT t)), emitted_pendingT.
  reflexivity.
Qed.

(** An incoming multiplicative operator pops the pending operator of the
    term before it, and nothing else. *)
Lemma pop_operators_mul (o : MulOp) (t : Term) (opStack : list string)
  (out : list Token) :
  lowStack opStack = true ->
  Parser.pop_operators (mulSym o) (pendingT t ++ opStack) out =
  Ok (opStack, (out ++ map TStr (pendingT t))%list).
Proof.
  intros Hlow.
  assert (Hstop : forall out', Parser.pop_operators (mulSym o) opStack out' =
                               Ok (opStack, out')).
  { intros out'. destruct opStack as [|top rest]; [reflexivity|].
    unfold lowStack in Hlow. apply negb_true_iff in Hlow.
    cbn [Parser.pop_operators].
    replace (Parser.precedence (mulSym o)) with 2 by now destruct o.
    now rewrite Hlow. }
  destruct t as [f | t' o' f]; simpl pendingT.
  - simpl. rewrite app_nil_r. apply Hstop.
  - destruct o, o'; simpl; apply Hstop.
Qed.

(** An incoming additive operator pops every pending operator of the
    expression before it. *)
Lemma pop_operators_add (o : AddOp) (e : Expr) (opStack : list string)
  (out : list Token) :
  baseStack opStack = true ->
  Parser.pop_operators (addSym o) (pendingE e ++ opStack) out =
  Ok (opStack, (out ++ map TStr (pendingE e))%list).
Proof.
  intros Hbase.
  assert (Hstop : forall out', Parser.pop_operators (addSym o) opStack out' =
                               Ok (opStack, out')).
  { intros out'. destruct opStack as [|top rest]; [reflexivity|].
    unfold baseStack in Hbase. apply negb_true_iff in Hbase.
    cbn [Parser.pop_operators]. now rewrite Hbase. }
  destruct e as [t | e' o' t]; simpl pendingE.
  - destruct t as [f | t' o'' f]; simpl pendingT.
    + simpl. rewrite app_nil_r. apply Hstop.
    + destruct o, o''; simpl; apply Hstop.
  - destruct t as [f | t' o'' f]; simpl pendingT.
    + destruct o, o'; simpl; rewrite <- ?app_assoc; apply Hstop.
    + destruct o, o', o''; simpl; rewrite <- ?app_assoc; apply Hstop.
Qed.

(** A closing parenthesis pops every pending operator of the expression
    within, down to the opening parenthesis. *)
Lemma pop_until_open_pending (e : Expr) (opStack : list string) (out : list Token) :
  Parser.pop_until_open (pendingE e ++ "(" :: opStack) out =
  Ok ("(" :: opStack, (out ++ map TStr (pendingE e))%list).
Proof.
  destruct e as [t | e' o' t]; simpl pendingE.
  - destruct t as [f | t' o'' f]; simpl pendingT.
    + simpl. now rewrite app_nil_r.
    + destruct o''; reflexivity.
  - destruct t as [f | t' o'' f]; simpl pendingT.
    + destruct o'; reflexivity.
    + destruct o', o''; simpl; rewrite <- ?app_assoc; reflexivity.
Qed.

Lemma drain_pending (e : Expr) (out : list Token) :
  Parser.drain (pendingE e) out = Ok (out ++ map TStr (pendingE e))%list.
Proof.
  destruct e as [t | e' o' t]; simpl pendingE.
  - destruct t as [f | t' o'' f]; simpl pendingT.
    + simpl. now rewrite app_nil_r.
    + destruct o''; reflexivity.
  - destruct t as [f | t' o'' f]; simpl pendingT.
    + destruct o'; reflexivity.
    + destruct o', o''; simpl; rewrite <- ?app_assoc; reflexivity.
Qed.

Lemma baseStack_lowStack (opStack : list string) :
  baseStack opStack = true -> lowStack opStack = true.
Proof.
  destruct opStack as [|top rest]; [reflexivity|].
  unfold baseStack, lowStack. intros H.
  apply negb_true_iff in H. now rewrite H.
Qed.

(** The state of the loop once the tokens of an expression, a term or a
    factor have been read. *)
Lemma shunt_tokens :
  (forall e opStack out, baseStack opStack = true ->
     Parser.shunt (tokensE e) opStack out =
     Ok (pendingE e ++ opStack, out ++ emittedE e)%list)
  /\ (forall t opStack out, lowStack opStack = true ->
     Parser.shunt (tokensT t) opStack out =
     Ok (pendingT t ++ opStack, out ++ emittedT t)%list)
  /\ (forall f opStack out,
     Parser.shunt (tokensF f) opStack out =
     Ok (opStack, out ++ postfixF f)%list).
Proof.
  apply syntax_ind.
  - intros t IH opStack out Hbase. simpl.
    apply IH. now apply baseStack_lowStack.
  - intros e IHe o t IHt opStack out Hbase. simpl.
    rewrite shunt_app, (IHe opStack out Hbase). simpl.
    replace (Parser.isVaildOp (addSym o)) with true by now destruct o.
    rewrite (pop_operators_add o e opStack _ Hbase). simpl.
    rewrite <- app_assoc, emitted_pendingE.
    rewrite IHt by now destruct o.
    rewrite <- !app_assoc. reflexivity.
  - intros f IH opStack out Hlow. simpl. apply IH.
  - intros t IHt o f IHf opStack out Hlow. simpl.
    rewrite shunt_app, (IHt opStack out Hlow). simpl.
    replace (Parser.isVaildOp (mulSym o)) with true by now destruct o.
    rewrite (pop_operators_mul o t opStack _ Hlow). simpl.
    rewrite <- app_assoc, emitted_pendingT.
    rewrite IHf. rewrite <- !app_assoc. reflexivity.
  - intros l opStack out. reflexivity.
  - intros e IHe opStack out. simpl.
    rewrite shunt_app, (IHe ("(" :: opStack) out eq_refl). simpl.
    rewrite pop_until_open_pending. simpl.
    now rewrite <- app_assoc, emitted_pendingE.
Qed.

Lemma toPostfix_tokens (e : Expr) :
  Parser.toPostfix (tokensE e) = Ok (postfixE e).
Proof.
  unfold Parser.toPostfix.
  rewrite (proj1 shunt_tokens e [] [] eq_refl). simpl.
  rewrite app_nil_r, drain_pending. now rewrite emitted_pendingE.
Qed.

(* ------------------------------------------------------------------ *)
(** * The tree builder                                                 *)
(* ------------------------------------------------------------------ *)

Lemma build_app (a b : list Token) :
  forall astStack,
    Parser.build (a ++ b) astStack =
    st <- Parser.build a astStack ;; Parser.build b st.
Proof.
  induction a as [|tk a IH]; intros astStack; simpl; [reflexivity|].
  destruct tk as [v | op]; [apply IH|].
  destruct astStack as [|r [|l astStack]]; try reflexivity. apply IH.
Qed.

Lemma build_postfix :
  (forall e rest astStack,
     Parser.build (postfixE e ++ rest) astStack =
     Parser.build rest (treeE e :: astStack))
  /\ (forall t rest astStack,
     Parser.build (postfixT t ++ rest) astStack =
     Parser.build rest (treeT t :: astStack))
  /\ (forall f rest astStack,
     Parser.build (postfixF f ++ rest) astStack =
     Parser.build rest (treeF f :: astStack)).
Proof.
  apply syntax_ind; simpl; intros.
  - apply H.
  - rewrite <- !app_assoc, H, H0. reflexivity.
  - apply H.
  - rewrite <- !app_assoc, H, H0. reflexivity.
  - reflexivity.
  - apply H.
Qed.

Lemma toTree_postfix (e : Expr) : Parser.toTree (postfixE e) = Ok (treeE e).
Proof.
  unfold Parser.toTree.
  rewrite <- (app_nil_r (postfixE e)), (proj1 build_postfix e [] []).
  reflexivity.
Qed.

(* ------------------------------------------------------------------ *)
(** * Parsing the expressions of the grammar                           *)
(* ------------------------------------------------------------------ *)

Lemma numberChar_not_paren (c : ascii) :
  Parser.isNumberChar c = true ->
  Ascii.eqb c "(" = false /\ Ascii.eqb c ")" = false.
Proof.
  intros H. split.
  - destruct (Ascii.eqb c "(") eqn:E; [|reflexivity].
    apply Ascii.eqb_eq in E. subst c. discriminate.
  - destruct (Ascii.eqb c ")") eqn:E; [|reflexivity].
    apply Ascii.eqb_eq in E. subst c. discriminate.
Qed.

Lemma isValid_loop_run (run rest : string) (stack : list ascii) :
  allNumberChars run = true ->
  Parser.isValid_loop (run ++ rest) stack = Parser.isValid_loop rest stack.
Proof.
  induction run as [|c run IH]; simpl; [reflexivity|].
  intros H. apply andb_true_iff in H as [Hc Hrun].
  destruct (numberChar_not_paren c Hc) as [Ho Hcl].
  unfold Parser.closeToOpen. rewrite Ho, Hcl. now apply IH.
Qed.

Lemma isValid_loop_show :
  (forall e, wfE e = true -> forall rest stack,
     Parser.isValid_loop (showE e ++ rest) stack = Parser.isValid_loop rest stack)
  /\ (forall t, wfT t = true -> forall rest stack,
     Parser.isValid_loop (showT t ++ rest) stack = Parser.isValid_loop rest stack)
  /\ (forall f, wfF f = true -> forall rest stack,
     Parser.isValid_loop (showF f ++ rest) stack = Parser.isValid_loop rest stack).
Proof.
  apply syntax_ind.
  - intros t IH Hwf rest stack. simpl. now apply IH.
  - intros e IHe o t IHt Hwf rest stack. simpl in *.
    apply andb_true_iff in Hwf as [He Ht].
    rewrite !string_app_assoc, (IHe He).
    destruct o; simpl; now apply IHt.
  - intros f IH Hwf rest stack. simpl. now apply IH.
  - intros t IHt o f IHf Hwf rest stack. simpl in *.
    apply andb_true_iff in Hwf as [Ht Hf].
    rewrite !string_app_assoc, (IHt Ht).
    destruct o; simpl; now apply IHf.
  - intros l Hwf rest stack. simpl in *.
    destruct (showLiteral_run l Hwf) as (c & run & E & Hrun).
    rewrite E. now apply isValid_loop_run.
  - intros e IHe Hwf rest stack. simpl in *.
    rewrite string_app_assoc, (IHe Hwf). reflexivity.
Qed.

Lemma isValid_showE (e : Expr) : wfE e = true -> Parser.isValid (showE e) = true.
Proof.
  intros Hwf. unfold Parser.isValid.
  rewrite <- (string_app_nil_r (showE e)).
  now rewrite (proj1 isValid_loop_show e Hwf).
Qed.

(** The parser builds the tree of the grammar. *)
Lemma parse_showE (e : Expr) (expr : string) :
  wfE e = true -> JS.removeWhiteSpace expr = showE e ->
  Parser.parse expr = Ok (treeE e).
Proof.
  intros Hwf Hs. unfold Parser.parse. rewrite Hs.
  rewrite (isValid_showE e Hwf), (tokenize_showE e Hwf). simpl.
  rewrite toPostfix_tokens. simpl. apply toTree_postfix.
Qed.

Lemma equal_zero (x : JS.number) : JS.equal x JS.zero = isZero x.
Proof.
  destruct x as [s | s | | s m e]; try destruct s; reflexivity.
Qed.

(** Evaluating the tree of an expression without division by zero gives
    the value of the expression. *)
Lemma evaluate_tree :
  (forall e, safeE e = true -> evaluate (treeE e) = Ok (VNumber (valueE e)))
  /\ (forall t, safeT t = true -> evaluate (treeT t) = Ok (VNumber (valueT t)))
  /\ (forall f, safeF f = true -> evaluate (treeF f) = Ok (VNumber (valueF f))).
Proof.
  apply syntax_ind.
  - intros t IH Hs. simpl. now apply IH.
  - intros e IHe o t IHt Hs. simpl in *.
    apply andb_true_iff in Hs as [He Ht].
    rewrite (IHe He), (IHt Ht). destruct o; reflexivity.
  - intros f IH Hs. simpl. now apply IH.
  - intros t IHt o f IHf Hs. simpl in *.
    apply andb_true_iff in Hs as [Hs Hz].
    apply andb_true_iff in Hs as [Ht Hf].
    rewrite (IHt Ht), (IHf Hf). destruct o; [reflexivity|].
    simpl. rewrite equal_zero. apply negb_true_iff in Hz. now rewrite Hz.
  - intros l _. reflexivity.
  - intros e IHe Hs. simpl. now apply IHe.
Qed.

(* ------------------------------------------------------------------ *)
(** * The errors of each stage of [parse]                              *)
(* ------------------------------------------------------------------ *)

Lemma pop_operators_fails (tk : string) (opStack : list string) :
  forall out, failsOnlyWith (eq InvalidOperatorStack)
                            (Parser.pop_operators tk opStack out).
Proof.
  induction opStack as [|top rest IH]; intros out; simpl; [exact I|].
  destruct (Parser.isVaildOp top && (Parser.precedence tk <=? Parser.precedence top)%nat);
    [|exact I].
  destruct (Parser.falsy top); [reflexivity | apply IH].
Qed.

Lemma pop_until_open_fails (opStack : list string) :
  forall out, failsOnlyWith (eq InvalidOperatorStack)
                            (Parser.pop_until_open opStack out).
Proof.
  induction opStack as [|top rest IH]; intros out; simpl; [exact I|].
  destruct (negb (top =? "(")); [|exact I].
  destruct (Parser.falsy top); [reflexivity | apply IH].
Qed.

Lemma shunt_fails (tokens : list Token) :
  forall opStack out, failsOnlyWith (eq InvalidOperatorStack)
                                    (Parser.shunt tokens opStack out).
Proof.
  induction tokens as [|tk tokens IH]; intros opStack out; simpl; [exact I|].
  destruct tk as [v | t]; simpl; [apply IH|].
  destruct (Parser.isVaildOp t).
  - pose proof (pop_operators_fails t opStack out) as H.
    destruct (Parser.pop_operators t opStack out) as [st|err]; simpl;
      [apply IH | exact H].
  - destruct (t =? "("); simpl; [apply IH|].
    pose proof (pop_until_open_fails opStack out) as H.
    destruct (Parser.pop_until_open opStack out) as [st|err]; simpl;
      [apply IH | exact H].
Qed.

Lemma drain_fails (opStack : list string) :
  forall out, failsOnlyWith (eq InvalidOperatorStack) (Parser.drain opStack out).
Proof.
  induction opStack as [|o rest IH]; intros out; simpl; [exact I|].
  destruct (Parser.falsy o); [reflexivity | apply IH].
Qed.

Lemma build_fails (outputQueue : list Token) :
  forall astStack, failsOnlyWith (eq InsufficientOperands)
                                 (Parser.build outputQueue astStack).
Proof.
  induction outputQueue as [|tk rest IH]; intros astStack; simpl; [exact I|].
  destruct tk as [v | op]; [apply IH|].
  destruct astStack as [|r [|l astStack]]; try reflexivity. apply IH.
Qed.

(** Once the parentheses are found balanced, no later stage reports
    InvalidParentheses. *)
Lemma parse_valid_fails (expr : string) :
  Parser.isValid (JS.removeWhiteSpace expr) = true ->
  failsOnlyWith (fun e => e <> InvalidParentheses) (Parser.parse expr).
Proof.
  intros Hv. unfold Parser.parse. rewrite Hv. simpl.
  unfold Parser.tokenize.
  pose proof (proj1 (tokenize_from_fails (JS.removeWhiteSpace expr)) 0 []) as Ht.
  destruct (Parser.tokenize_from (JS.removeWhiteSpace expr) 0 []) as [tokens|err];
    simpl in *; [|destruct Ht as (c & j & ->); discriminate].
  unfold Parser.toPostfix.
  pose proof (shunt_fails tokens [] []) as Hs.
  destruct (Parser.shunt tokens [] []) as [st|err]; simpl in *;
    [|subst err; discriminate].
  pose proof (drain_fails (fst st) (snd st)) as Hd.
  destruct (Parser.drain (fst st) (snd st)) as [oq|err]; simpl in *;
    [|subst err; discriminate].
  unfold Parser.toTree.
  pose proof (build_fails oq []) as Hb.
  destruct (Parser.build oq []) as [astStack|err]; simpl in *;
    [|subst err; discriminate].
  destruct astStack as [|node [|node' astStack]]; simpl; try exact I; discriminate.
Qed.

(* ------------------------------------------------------------------ *)
(** * Properties                                                       *)
(* ------------------------------------------------------------------ *)

(** C2. For every expression of the grammar of decimal numbers, [+ - * /]
    and parentheses, written with any white space, in which no division
    has a right operand of value 0, [parse] succeeds and evaluating its
    tree gives the value of the expression, the multiplicative operators
    binding tighter than the additive ones and every level associating to
    the left (the arithmetic being that of binary64 numbers); and
    [parse("3 + 4 * 2 / (1 - 5) + 7").evaluate()] is 8. *)
Theorem parse_evaluate_arithmetic :
  (forall (e : Expr) (expr : string),
      wfE e = true -> safeE e = true ->
      JS.removeWhiteSpace expr = showE e ->
      exists t, Parser.parse expr = Ok t
                /\ t = treeE e
                /\ evaluate t = Ok (VNumber (valueE e)))
  /\ (exists t, Parser.parse "3 + 4 * 2 / (1 - 5) + 7" = Ok t
                /\ evaluate t = Ok (VNumber (JS.of_Z 8))).
Proof.
  split.
  - intros e expr Hwf Hsafe Hs. exists (treeE e).
    split; [now apply parse_showE|].
    split; [reflexivity | now apply evaluate_tree].
  - eexists. split; vm_compute; reflexivity.
Qed.

Lemma parse_evaluate_arithmetic_witness :
  exists t, Parser.parse "3 + 4 * 2 / (1 - 5) + 7" = Ok t
            /\ t = treeE example_expr
            /\ evaluate t = Ok (VNumber (valueE example_expr)).
Proof.
  exact (proj1 parse_evaluate_arithmetic example_expr
               "3 + 4 * 2 / (1 - 5) + 7" eq_refl eq_refl eq_refl).
Defined.

(** C1. What the code does with the comparison operators: [precedence]
    answers 2 for [<], [>] and [=], as for [*] and [/], and 1 for [+] and
    [-] only. An incoming comparison operator therefore leaves a pending
    additive operator on the stack, while an incoming additive operator
    pops a pending comparison operator; [1 + 2 < 3] is parsed as
    [1 + (2 < 3)] and evaluates to 2. *)
Theorem precedence_comparison_operators :
  (Parser.precedence "<" = 2 /\ Parser.precedence ">" = 2
   /\ Parser.precedence "=" = 2)
  /\ (Parser.precedence "*" = 2 /\ Parser.precedence "/" = 2
      /\ Parser.precedence "+" = 1 /\ Parser.precedence "-" = 1)
  /\ (forall cmp add opStack out,
        In cmp ["<"; ">"; "="] -> In add ["+"; "-"] ->
        Parser.pop_operators cmp (add :: opStack) out
        = Ok (add :: opStack, out)
        /\ Parser.pop_operators add (cmp :: opStack) out
           = Parser.pop_operators add opStack (out ++ [TStr cmp]))
  /\ Parser.parse "1 + 2 < 3"
     = Ok (BinaryOperationNode
             (NumberNode (JS.of_Z 1))
             (BinaryOperationNode (NumberNode (JS.of_Z 2))
                                  (NumberNode (JS.of_Z 3)) "<")
             "+")
  /\ (t <- Parser.parse "1 + 2 < 3" ;; evaluate t) = Ok (VNumber (JS.of_Z 2)).
Proof.
  split; [repeat split|]. split; [repeat split|]. split.
  - intros cmp add opStack out Hc Ha. simpl in Hc, Ha.
    destruct Hc as [<- | [<- | [<- | []]]]; destruct Ha as [<- | [<- | []]];
      split; reflexivity.
  - split; vm_compute; reflexivity.
Qed.

Lemma precedence_comparison_operators_witness :
  Parser.pop_operators "<" ["+"] [TNum (JS.of_Z 1); TNum (JS.of_Z 2)]
  = Ok (["+"], [TNum (JS.of_Z 1); TNum (JS.of_Z 2)]).
Proof.
  exact (proj1 (proj1 (proj2 (proj2 precedence_comparison_operators))
                      "<" "+" [] [TNum (JS.of_Z 1); TNum (JS.of_Z 2)]
                      (or_introl eq_refl) (or_introl eq_refl))).
Defined.

(** C3. Round trip: for every tree [t], [deserialize (serialize t)]
    succeeds with a tree that evaluates to the same result or the same
    error, prints the same string and serialises to the same object as
    [t]; it is [t] itself. *)
Theorem deserialize_serialize :
  forall t : ASTNode,
    exists t', Parser.deserialize (serialize t) = Ok t'
               /\ evaluate t' = evaluate t
               /\ print t' = print t
               /\ serialize t' = serialize t
               /\ t' = t.
Proof.
  intros t. exists t.
  split; [|repeat split].
  induction t as [v | l IHl r IHr op]; simpl; [reflexivity|].
  now rewrite IHl, IHr.
Qed.

(** C4. [print] gives the fully parenthesised form: for a binary node the
    string ["(" + left.print() + " " + operator + " " + right.print() + ")"],
    for a number node the decimal string of its value, whatever
    parentheses the input had: an expression and the same expression
    within parentheses parse to the same tree, hence print alike.
    [parse("10 + 5").print()] is ["(10 + 5)"]. *)
Theorem print_fully_parenthesized :
  (forall l r op,
      print (BinaryOperationNode l r op)
      = "(" ++ print l ++ " " ++ op ++ " " ++ print r ++ ")")
  /\ (forall v, print (NumberNode v) = JS.toString v)
  /\ (forall e expr expr',
      wfE e = true ->
      JS.removeWhiteSpace expr = showE e ->
      JS.removeWhiteSpace expr' = "(" ++ showE e ++ ")" ->
      exists t, Parser.parse expr = Ok t /\ Parser.parse expr' = Ok t)
  /\ (t <- Parser.parse "10 + 5" ;; Ok (print t)) = Ok "(10 + 5)"
  /\ (t <- Parser.parse "((10) + (5))" ;; Ok (print t)) = Ok "(10 + 5)"
  /\ (t <- Parser.parse "1 + 2 * 3" ;; Ok (print t)) = Ok "(1 + (2 * 3))"
  /\ (t <- Parser.parse "1 + (2 * 3)" ;; Ok (print t)) = Ok "(1 + (2 * 3))".
Proof.
  split; [reflexivity|]. split; [reflexivity|]. split.
  - intros e expr expr' Hwf Hs Hs'. exists (treeE e).
    split; [now apply parse_showE|].
    now apply (parse_showE (ETerm (TFactor (FParen e)))).
  - repeat split; vm_compute; reflexivity.
Qed.

Lemma print_fully_parenthesized_witness :
  exists t, Parser.parse "3 + 4 * 2 / (1 - 5) + 7" = Ok t
            /\ Parser.parse "(3 + 4 * 2 / (1 - 5) + 7)" = Ok t.
Proof.
  exact (proj1 (proj2 (proj2 print_fully_parenthesized)) example_expr
               "3 + 4 * 2 / (1 - 5) + 7" "(3 + 4 * 2 / (1 - 5) + 7)"
               eq_refl eq_refl eq_refl).
Defined.

(** C5. Once both operands of a [/] node are evaluated, the node fails
    with DivisionByZero exactly when the value of the right operand is the
    number 0 (of either sign), no quotient being computed then; otherwise
    it returns the quotient. [parse("10 / 0").evaluate()] fails with
    DivisionByZero. *)
Theorem division_by_zero :
  (forall l r lv rv,
      evaluate l = Ok lv -> evaluate r = Ok rv ->
      (evaluate (BinaryOperationNode l r "/") = Err DivisionByZero
       <-> exists s, rv = VNumber (S754_zero s))
      /\ ((forall s, rv <> VNumber (S754_zero s)) ->
          evaluate (BinaryOperationNode l r "/")
          = Ok (VNumber (JS.div (ToNumber lv) (ToNumber rv)))))
  /\ (t <- Parser.parse "10 / 0" ;; evaluate t) = Err DivisionByZero.
Proof.
  split; [|vm_compute; reflexivity].
  intros l r lv rv Hl Hr. simpl. rewrite Hl, Hr. simpl.
  destruct rv as [x | b]; simpl.
  - rewrite equal_zero. destruct x as [s | s | | s m e]; simpl.
    + split; [split; eauto|]. intros H. now destruct (H s).
    + split; [split; [discriminate | intros [s' H]; discriminate]|reflexivity].
    + split; [split; [discriminate | intros [s' H]; discriminate]|reflexivity].
    + split; [split; [discriminate | intros [s' H]; discriminate]|reflexivity].
  - split; [split; [discriminate | intros [s' H]; discriminate]|reflexivity].
Qed.

Lemma division_by_zero_witness :
  evaluate (BinaryOperationNode (NumberNode (JS.of_Z 10))
                                (NumberNode (JS.of_Z 0)) "/")
  = Err DivisionByZero.
Proof.
  exact (proj2 (proj1 (proj1 division_by_zero
                        (NumberNode (JS.of_Z 10)) (NumberNode (JS.of_Z 0))
                        (VNumber (JS.of_Z 10)) (VNumber (JS.of_Z 0))
                        eq_refl eq_refl))
               (ex_intro _ false eq_refl)).
Defined.

(** C6. The tree builder fails with InsufficientOperands when it reaches
    an operator token with fewer than two nodes on its stack; with two or
    more it pops the right operand, then the left one, and pushes their
    node. When the tokens are consumed and the stack does not hold exactly
    one node it fails with InvalidExpression. So [parse] of the empty string,
    [parse("   ")], [parse("()")] and [parse("(   )")] fail, with
    InvalidExpression, and [parse("1 +")], [parse("*3")] and
    [parse("1 + * 2")] fail with InsufficientOperands. *)
Theorem build_errors :
  (forall pre op post astStack0 astStack,
      Parser.build pre astStack0 = Ok astStack ->
      List.length astStack < 2 ->
      Parser.build (pre ++ TStr op :: post) astStack0 = Err InsufficientOperands)
  /\ (forall pre op post astStack0 r l astStack,
      Parser.build pre astStack0 = Ok (r :: l :: astStack) ->
      Parser.build (pre ++ TStr op :: post) astStack0
      = Parser.build post (BinaryOperationNode l r op :: astStack))
  /\ (forall outputQueue astStack,
      Parser.build outputQueue [] = Ok astStack ->
      List.length astStack <> 1 ->
      Parser.toTree outputQueue = Err InvalidExpression)
  /\ Parser.parse EmptyString = Err InvalidExpression
  /\ Parser.parse "   " = Err InvalidExpression
  /\ Parser.parse "()" = Err InvalidExpression
  /\ Parser.parse "(   )" = Err InvalidExpression
  /\ Parser.parse "1 +" = Err InsufficientOperands
  /\ Parser.parse "*3" = Err InsufficientOperands
  /\ Parser.parse "1 + * 2" = Err InsufficientOperands.
Proof.
  split; [|split; [|split; [|repeat split]]].
  - intros pre op post astStack0 astStack Hb Hlen.
    rewrite build_app, Hb. simpl.
    destruct astStack as [|r [|l astStack]]; simpl in *; try reflexivity. lia.
  - intros pre op post astStack0 r l astStack Hb.
    rewrite build_app, Hb. reflexivity.
  - intros outputQueue astStack Hb Hlen.
    unfold Parser.toTree. rewrite Hb. simpl.
    destruct astStack as [|node [|node' astStack]]; simpl in *;
      try reflexivity. lia.
Qed.

Lemma build_errors_witness :
  Parser.build ([TNum (JS.of_Z 1)] ++ TStr "+" :: []) [] = Err InsufficientOperands.
Proof.
  refine (proj1 build_errors [TNum (JS.of_Z 1)] "+" [] []
                [NumberNode (JS.of_Z 1)] eq_refl _).
  simpl. lia.
Defined.

(** C7. The tokenizer turns a maximal run of the characters [0-9.] into
    one number token, [parseFloat] of the run, and goes on after the run;
    [parseFloat] reads the leading decimal literal of the run, up to the
    first character that cannot extend it, and ignores the rest: a second
    point and what follows it are dropped. When the input without its
    white space is [1.2.3], [parse] returns a single NumberNode, of value
    1.2. *)
Theorem tokenize_number_run :
  (forall c run rest i res,
      allNumberChars (String c run) = true -> startsClean rest = true ->
      Parser.tokenize_from (String c run ++ rest) i res
      = Parser.tokenize_from rest (i + String.length (String c run))
          (res ++ [TNum (JS.parseFloat (String c run))]))
  /\ (forall ip fp tail,
      validLiteral (LDec ip fp) = true -> startsNoDigit tail = true ->
      JS.parseFloat (ip ++ "." ++ fp ++ tail) = literalValue (LDec ip fp))
  /\ (forall ip fp tail,
      allDigits ip = true -> allDigits fp = true ->
      JS.parseFloat (ip ++ "." ++ fp ++ "." ++ tail)
      = JS.parseFloat (ip ++ "." ++ fp))
  /\ (forall expr,
      JS.removeWhiteSpace expr = "1.2.3" ->
      Parser.parse expr = Ok (NumberNode (JS.of_decimal 12 (-1)))
      /\ (t <- Parser.parse expr ;; evaluate t)
         = Ok (VNumber (S754_finite false 5404319552844595 (-52))))
  /\ (t <- Parser.parse "1.2.3" ;; Ok (print t)) = Ok "1.2".
Proof.
  split; [|split; [|split; [|split]]].
  - intros. now apply tokenize_run.
  - intros ip fp tail Hl Ht. simpl in Hl.
    apply andb_true_iff in Hl as [Hl Hn].
    apply andb_true_iff in Hl as [Hi Hf].
    rewrite (parseFloat_point ip fp tail Hi Hf Ht).
    apply negb_true_iff in Hn. rewrite string_length_app in Hn.
    assert (E : ((String.length ip =? 0) && (String.length fp =? 0))%nat = false)
      by (destruct (String.length ip), (String.length fp);
          simpl in *; try discriminate; reflexivity).
    now rewrite E.
  - intros. now apply parseFloat_second_point.
  - intros expr Hs. unfold Parser.parse. rewrite Hs.
    split; vm_compute; reflexivity.
  - vm_compute; reflexivity.
Qed.

Lemma tokenize_number_run_witness :
  Parser.parse " 1.2 .3" = Ok (NumberNode (JS.of_decimal 12 (-1))).
Proof.
  exact (proj1 (proj1 (proj2 (proj2 (proj2 tokenize_number_run)))
                      " 1.2 .3" eq_refl)).
Defined.

(** C8. [parse] removes the white space of its argument and fails with
    InvalidParentheses if and only if [isValid] answers false on the
    result, whatever the other characters are. [isValid] answers false
    exactly when some [)] has no earlier [(] left to match, or else some
    [(] is never closed; characters other than parentheses do not count.
    [parse("(1 + 2")] fails with InvalidParentheses. *)
Theorem parse_invalid_parentheses :
  (forall expr,
      Parser.parse expr = Err InvalidParentheses
      <-> Parser.isValid (JS.removeWhiteSpace expr) = false)
  /\ (forall s,
      Parser.isValid s = false <-> premature_close s \/ leftover_open s)
  /\ (forall s, Parser.isValid s = Parser.isValid (parens s))
  /\ Parser.parse "(1 + 2" = Err InvalidParentheses
  /\ Parser.parse "($" = Err InvalidParentheses.
Proof.
  split; [|split; [|split; [|split; reflexivity]]].
  - intros expr. split.
    + intros Hp. destruct (Parser.isValid (JS.removeWhiteSpace expr)) eqn:Hv;
        [|reflexivity].
      pose proof (parse_valid_fails expr Hv) as H. rewrite Hp in H.
      now destruct H.
    + intros Hv. unfold Parser.parse. now rewrite Hv.
  - apply isValid_false_iff.
  - intros s. unfold Parser.isValid. now rewrite isValid_loop_parens.
Qed.

Lemma parse_invalid_parentheses_witness :
  Parser.parse "1 + 2)" = Err InvalidParentheses
  /\ (premature_close "1+2)" \/ leftover_open "1+2)").
Proof.
  split.
  - exact (proj2 (proj1 parse_invalid_parentheses "1 + 2)") eq_refl).
  - exact (proj1 (proj1 (proj2 parse_invalid_parentheses) "1+2)") eq_refl).
Defined.

(** C9 (as amended). When the right operand of a [/] node evaluates to the
    boolean false, the node does not fail with DivisionByZero: it returns
    the quotient of the left value, as a number, by the number 0, which is
    the infinity of the sign of a numerator other than 0 and NaN (Infinity
    when the numerator is positive), and NaN when the numerator is 0 or
    NaN. [parse("1 / (2 = 3)").evaluate()] is Infinity. *)
Theorem division_by_false :
  (forall l r lv,
      evaluate l = Ok lv -> evaluate r = Ok (VBoolean false) ->
      evaluate (BinaryOperationNode l r "/")
      = Ok (VNumber (JS.div (ToNumber lv) JS.zero))
      /\ evaluate (BinaryOperationNode l r "/") <> Err DivisionByZero
      /\ JS.div (ToNumber lv) JS.zero
         = match ToNumber lv with
           | S754_finite s _ _ | S754_infinity s => S754_infinity s
           | S754_zero _ | S754_nan => JS.NaN
           end)
  /\ (t <- Parser.parse "1 / (2 = 3)" ;; evaluate t) = Ok (VNumber JS.Infinity).
Proof.
  split; [|vm_compute; reflexivity].
  intros l r lv Hl Hr. simpl. rewrite Hl, Hr. simpl.
  split; [reflexivity|]. split; [discriminate|].
  destruct (ToNumber lv) as [s | s | | s m e]; try destruct s; reflexivity.
Qed.

Lemma division_by_false_witness :
  evaluate (BinaryOperationNode
              (NumberNode (JS.of_Z 1))
              (BinaryOperationNode (NumberNode (JS.of_Z 2))
                                   (NumberNode (JS.of_Z 3)) "=") "/")
  = Ok (VNumber (JS.div (ToNumber (VNumber (JS.of_Z 1))) JS.zero)).
Proof.
  exact (proj1 (proj1 division_by_false
                  (NumberNode (JS.of_Z 1))
                  (BinaryOperationNode (NumberNode (JS.of_Z 2))
                                       (NumberNode (JS.of_Z 3)) "=")
                  (VNumber (JS.of_Z 1)) eq_refl eq_refl)).
Defined.

(** C9, as stated, fails: in [(0 - 1) / (2 = 3)] the right operand
    evaluates to false and the numerator to -1, which is not 0, and the
    result is -Infinity, not Infinity. *)
Lemma division_by_false_counterexample :
  Parser.parse "(0 - 1) / (2 = 3)"
  = Ok (BinaryOperationNode minus_one two_equals_three "/")
  /\ evaluate minus_one = Ok (VNumber (JS.of_Z (-1)))
  /\ JS.equal (JS.of_Z (-1)) JS.zero = false
  /\ evaluate two_equals_three = Ok (VBoolean false)
  /\ evaluate (BinaryOperationNode minus_one two_equals_three "/")
     = Ok (VNumber (S754_infinity true))
  /\ ~ (forall l r x,
          evaluate l = Ok (VNumber x) -> JS.equal x JS.zero = false ->
          evaluate r = Ok (VBoolean false) ->
          evaluate (BinaryOperationNode l r "/") = Ok (VNumber JS.Infinity)).
Proof.
  repeat split; try (vm_compute; reflexivity).
  intros H.
  specialize (H minus_one two_equals_three (JS.of_Z (-1))
                eq_refl eq_refl eq_refl).
  vm_compute in H. discriminate.
Qed.

(** C10. A run of points only is taken as a number token, of value NaN:
    the tokenizer goes on after it, and when the input without its white
    space is one or more points, [parse] succeeds and returns a NumberNode
    of value NaN. *)
Theorem parse_dots_NaN :
  (forall n rest i res,
      startsClean rest = true ->
      Parser.tokenize_from (dots (S n) ++ rest) i res
      = Parser.tokenize_from rest (i + S n) (res ++ [TNum JS.NaN]))
  /\ (forall expr n,
      JS.removeWhiteSpace expr = dots (S n) ->
      Parser.parse expr = Ok (NumberNode JS.NaN)).
Proof.
  assert (Hall : forall n, allNumberChars (dots n) = true)
    by (induction n as [|n IH]; simpl; [reflexivity | now rewrite IH]).
  assert (Hlen : forall n, String.length (dots n) = n)
    by (induction n as [|n IH]; simpl; [reflexivity | now rewrite IH]).
  assert (Htok : forall n rest i res,
             startsClean rest = true ->
             Parser.tokenize_from (dots (S n) ++ rest) i res
             = Parser.tokenize_from rest (i + S n) (res ++ [TNum JS.NaN])).
  { intros n rest i res Hrest.
    change (dots (S n)) with (String "." (dots n)).
    rewrite (tokenize_run "." (dots n) rest i res (Hall (S n)) Hrest).
    change (String "." (dots n)) with (dots (S n)).
    now rewrite parseFloat_dots, Hlen. }
  split; [exact Htok|].
  intros expr n Hs. unfold Parser.parse. rewrite Hs.
  unfold Parser.isValid.
  rewrite <- (string_app_nil_r (dots (S n))).
  rewrite (isValid_loop_run (dots (S n)) EmptyString [] (Hall (S n))).
  unfold Parser.tokenize. rewrite (Htok n EmptyString 0 [] eq_refl). reflexivity.
Qed.

Lemma parse_dots_NaN_witness :
  Parser.parse " . . " = Ok (NumberNode JS.NaN).
Proof.
  exact (proj2 parse_dots_NaN " . . " 1 eq_refl).
Defined.

(* ------------------------------------------------------------------ *)
(** * Further properties: the tokenizer                                *)
(* ------------------------------------------------------------------ *)

(** The tokenizer stops at the first character it does not accept and
    reports it with its position. *)
Lemma tokenize_from_unexpected (p : string) (c : ascii) (q : string) :
  allAccepted p = true -> accepted c = false ->
  (forall i res,
      Parser.tokenize_from (p ++ String c q) i res
      = Err (UnexpectedToken c (i + String.length p)))
  /\ (forall res num j,
      Parser.scan res num (p ++ String c q) j
      = Err (UnexpectedToken c (j + String.length p))).
Proof.
  intros Hp Hc. unfold accepted in Hc. apply orb_false_iff in Hc as [Hn Hs].
  induction p as [|d p IH].
  - assert (Ht : forall i res,
               Parser.tokenize_from (String c q) i res
               = Err (UnexpectedToken c (i + 0))).
    { intros i res. now rewrite tokenize_from_cons, Hn, Hs, Nat.add_0_r. }
    split; [exact Ht|].
    intros res num j. simpl. rewrite scan_cons, Hn. apply Ht.
  - simpl in Hp. apply andb_true_iff in Hp as [Hd Hp].
    destruct (IH Hp) as [IHt IHs].
    assert (Ht : forall i res,
               Parser.tokenize_from (String d p ++ String c q) i res
               = Err (UnexpectedToken c (i + String.length (String d p)))).
    { intros i res. simpl. rewrite tokenize_from_cons, Nat.add_succ_r.
      destruct (Parser.isNumberChar d) eqn:Hdn; [apply IHs|].
      unfold accepted in Hd. rewrite Hdn in Hd. simpl in Hd. rewrite Hd.
      apply IHt. }
    split; [exact Ht|].
    intros res num j. simpl. rewrite scan_cons.
    destruct (Parser.isNumberChar d) eqn:Hdn.
    + rewrite Nat.add_succ_r. apply IHs.
    + apply (Ht j).
Qed.

(** The tokens pushed are numbers, operators and parentheses, and the
    tokenizer succeeds when every character is accepted. *)
Lemma tokenize_from_accepted (s : string) :
  allAccepted s = true ->
  (forall i res, Forall (fun tk => tokenOK tk = true) res ->
     exists out, Parser.tokenize_from s i res = Ok out
                 /\ Forall (fun tk => tokenOK tk = true) out)
  /\ (forall res num j, Forall (fun tk => tokenOK tk = true) res ->
     exists out, Parser.scan res num s j = Ok out
                 /\ Forall (fun tk => tokenOK tk = true) out).
Proof.
  induction s as [|c s IH]; intros Hs.
  - split.
    + intros i res Hres. exists res. split; [reflexivity | exact Hres].
    + intros res num j Hres. eexists. split; [reflexivity|].
      apply Forall_app. split; [exact Hres | repeat constructor].
  - simpl in Hs. apply andb_true_iff in Hs as [Hc Hs].
    destruct (IH Hs) as [IHt IHs].
    assert (Ht : forall i res, Forall (fun tk => tokenOK tk = true) res ->
               exists out, Parser.tokenize_from (String c s) i res = Ok out
                           /\ Forall (fun tk => tokenOK tk = true) out).
    { intros i res Hres. rewrite tokenize_from_cons.
      destruct (Parser.isNumberChar c) eqn:Hn; [now apply IHs|].
      unfold accepted in Hc. rewrite Hn in Hc. simpl in Hc. rewrite Hc.
      apply IHt. apply Forall_app. split; [exact Hres|].
      constructor; [|constructor].
      unfold Parser.isSymbolChar in Hc.
      repeat (apply orb_true_iff in Hc as [Hc | Hc]);
        apply Ascii.eqb_eq in Hc; subst c; reflexivity. }
    split; [exact Ht|].
    intros res num j Hres. rewrite scan_cons.
    destruct (Parser.isNumberChar c) eqn:Hn; [now apply IHs|].
    apply Ht. apply Forall_app. split; [exact Hres | repeat constructor].
Qed.

Lemma allAccepted_split (s : string) :
  allAccepted s = false ->
  exists p c q, s = p ++ String c q /\ allAccepted p = true /\ accepted c = false.
Proof.
  induction s as [|d s IH]; simpl; [discriminate|].
  intros H. destruct (accepted d) eqn:Hd.
  - simpl in H. destruct (IH H) as (p & c & q & -> & Hp & Hc).
    exists (String d p), c, q. simpl. rewrite Hd, Hp. auto.
  - exists EmptyString, d, s. auto.
Qed.

Lemma tokenize_Ok_iff (s : string) :
  (exists tokens, Parser.tokenize s = Ok tokens) <-> allAccepted s = true.
Proof.
  unfold Parser.tokenize. destruct (allAccepted s) eqn:Hs.
  - destruct (proj1 (tokenize_from_accepted s Hs) 0 [] (Forall_nil _))
      as (out & Hout & Hok).
    split; [reflexivity | intros _; now exists out].
  - destruct (allAccepted_split s Hs) as (p & c & q & -> & Hp & Hc).
    rewrite (proj1 (tokenize_from_unexpected p c q Hp Hc) 0 []).
    split; [intros [tokens H]; discriminate | discriminate].
Qed.

Lemma tokenize_tokenOK (s : string) (tokens : list Token) :
  Parser.tokenize s = Ok tokens -> Forall (fun tk => tokenOK tk = true) tokens.
Proof.
  intros Ht.
  assert (Hs : allAccepted s = true)
    by (apply tokenize_Ok_iff; now exists tokens).
  unfold Parser.tokenize in Ht.
  destruct (proj1 (tokenize_from_accepted s Hs) 0 [] (Forall_nil _))
    as (out & Hout & Hok).
  rewrite Hout in Ht. now inversion Ht; subst.
Qed.

(** X1. [tokenize] succeeds exactly on the strings made of the characters
    [0-9.] and [+-*/()<>=], and every token it returns is a number, one of
    the seven operators or a parenthesis. *)
Theorem tokenize_succeeds_iff :
  forall s : string,
    ((exists tokens, Parser.tokenize s = Ok tokens) <-> allAccepted s = true)
    /\ (forall tokens, Parser.tokenize s = Ok tokens ->
        Forall (fun tk => tokenOK tk = true) tokens).
Proof.
  intros s. split; [apply tokenize_Ok_iff | apply tokenize_tokenOK].
Qed.

Lemma tokenize_succeeds_iff_witness :
  exists tokens, Parser.tokenize "(1.5+2)*3<4" = Ok tokens.
Proof.
  exact (proj2 (proj1 (tokenize_succeeds_iff "(1.5+2)*3<4")) eq_refl).
Defined.

(** X2. When the input without its white space has balanced parentheses
    and its first character outside [0-9.] and [+-*/()<>=] is [c], at
    position [i] counted from 0, [parse] fails with UnexpectedToken for
    [c] and [i], whatever follows. *)
Theorem parse_unexpected_token :
  forall (expr p : string) (c : ascii) (q : string),
    JS.removeWhiteSpace expr = p ++ String c q ->
    Parser.isValid (p ++ String c q) = true ->
    allAccepted p = true -> accepted c = false ->
    Parser.parse expr = Err (UnexpectedToken c (String.length p)).
Proof.
  intros expr p c q Hs Hv Hp Hc. unfold Parser.parse.
  rewrite Hs, Hv. simpl. unfold Parser.tokenize.
  now rewrite (proj1 (tokenize_from_unexpected p c q Hp Hc) 0 []).
Qed.

Lemma parse_unexpected_token_witness :
  Parser.parse "1 + $ * x" = Err (UnexpectedToken "$" 2).
Proof.
  exact (parse_unexpected_token "1 + $ * x" "1+" "$" "*x"
           eq_refl eq_refl eq_refl eq_refl).
Defined.

(* ------------------------------------------------------------------ *)
(** * Further properties: what reaches the output queue                *)
(* ------------------------------------------------------------------ *)

Lemma isVaildOp_cases (op : string) :
  Parser.isVaildOp op = true ->
  op = "+" \/ op = "-" \/ op = "*" \/ op = "/"
  \/ op = "<" \/ op = ">" \/ op = "=".
Proof.
  unfold Parser.isVaildOp. intros H.
  apply existsb_exists in H as (x & Hin & Heq).
  apply String.eqb_eq in Heq. subst x. simpl in Hin. intuition auto.
Qed.

Lemma isVaildOp_not_paren (op : string) :
  Parser.isVaildOp op = true ->
  Parser.falsy op = false /\ (op =? "(") = false /\ (op =? ")") = false.
Proof.
  intros H. apply isVaildOp_cases in H.
  repeat (destruct H as [-> | H]); try subst op; repeat split; reflexivity.
Qed.

(** The parentheses of a string are balanced exactly when those of its
    tokens are. *)
Lemma tokens_balanced (s : string) :
  (forall i res out,
      Parser.tokenize_from s i res = Ok out ->
      exists toks, out = (res ++ toks)%list
        /\ forall stack, Forall (eq "("%char) stack ->
             Parser.isValid_loop s stack
             = balancedTokens toks (List.length stack))
  /\ (forall res num j out,
      Parser.scan res num s j = Ok out ->
      exists v toks, out = (res ++ TNum v :: toks)%list
        /\ forall stack, Forall (eq "("%char) stack ->
             Parser.isValid_loop s stack
             = balancedTokens toks (List.length stack)).
Proof.
  induction s as [|c s [IHt IHs]].
  - split.
    + intros i res out H. inversion H; subst. exists [].
      split; [now rewrite app_nil_r | reflexivity].
    + intros res num j out H. rewrite scan_nil in H. inversion H; subst.
      exists (JS.parseFloat num), []. split; reflexivity.
  - assert (Ht : forall i res out,
               Parser.tokenize_from (String c s) i res = Ok out ->
               exists toks, out = (res ++ toks)%list
                 /\ forall stack, Forall (eq "("%char) stack ->
                      Parser.isValid_loop (String c s) stack
                      = balancedTokens toks (List.length stack)).
    { intros i res out H. rewrite tokenize_from_cons in H.
      destruct (Parser.isNumberChar c) eqn:Hn.
      - destruct (IHs _ _ _ _ H) as (v & toks & -> & Hb).
        exists (TNum v :: toks). split; [reflexivity|].
        intros stack Hst. simpl.
        destruct (numberChar_not_paren c Hn) as [Ho Hc].
        unfold Parser.closeToOpen. rewrite Ho, Hc. now apply Hb.
      - destruct (Parser.isSymbolChar c) eqn:Hs; [|discriminate].
        destruct (IHt _ _ _ H) as (toks & -> & Hb).
        exists (TStr (String c EmptyString) :: toks).
        split; [now rewrite <- app_assoc|].
        intros stack Hst. simpl. unfold Parser.closeToOpen.
        destruct (Ascii.eqb c "(") eqn:Ho.
        + apply Ascii.eqb_eq in Ho. subst c.
          apply (Hb ("("%char :: stack)). now constructor.
        + destruct (Ascii.eqb c ")") eqn:Hc.
          * destruct stack as [|top stack]; [reflexivity|].
            inversion Hst; subst. simpl. now apply Hb.
          * now apply Hb. }
    split; [exact Ht|].
    intros res num j out H. rewrite scan_cons in H.
    destruct (Parser.isNumberChar c) eqn:Hn.
    + destruct (IHs _ _ _ _ H) as (v & toks & -> & Hb).
      exists v, toks. split; [reflexivity|].
      intros stack Hst. simpl.
      destruct (numberChar_not_paren c Hn) as [Ho Hc].
      unfold Parser.closeToOpen. rewrite Ho, Hc. now apply Hb.
    + destruct (Ht _ _ _ H) as (toks & -> & Hb).
      exists (JS.parseFloat num), toks.
      split; [now rewrite <- app_assoc | exact Hb].
Qed.

Lemma queueOK_snoc (out : list Token) (op : string) :
  queueOK out = true -> Parser.isVaildOp op = true ->
  queueOK (out ++ [TStr op]) = true.
Proof.
  intros Hq Hop. unfold queueOK. rewrite forallb_app. simpl.
  fold (queueOK out). now rewrite Hq, Hop.
Qed.

Lemma pop_operators_inv (tk : string) (opStack : list string) :
  forall out,
    stackOK opStack = true -> queueOK out = true ->
    exists stk1 out1,
      Parser.pop_operators tk opStack out = Ok (stk1, out1)
      /\ stackOK stk1 = true /\ queueOK out1 = true
      /\ parenDepth stk1 = parenDepth opStack.
Proof.
  induction opStack as [|top rest IH]; intros out Hs Hq.
  - exists [], out. auto.
  - simpl in Hs. apply andb_true_iff in Hs as [Htop Hrest].
    cbn [Parser.pop_operators].
    destruct (Parser.isVaildOp top) eqn:Hop; simpl.
    + destruct (isVaildOp_not_paren top Hop) as (Hf & Ho & _).
      destruct (Parser.precedence tk <=? Parser.precedence top)%nat.
      * rewrite Hf.
        destruct (IH (out ++ [TStr top])%list Hrest (queueOK_snoc _ _ Hq Hop))
          as (stk1 & out1 & -> & H1 & H2 & H3).
        exists stk1, out1. repeat split; auto.
        unfold parenDepth in *. simpl. now rewrite Ho.
      * exists (top :: rest), out. repeat split; auto.
        simpl. now rewrite Hop, Hrest.
    + exists (top :: rest), out. repeat split; auto.
      simpl. now rewrite Hop, Htop, Hrest.
Qed.

Lemma pop_until_open_inv (opStack : list string) :
  forall out d,
    stackOK opStack = true -> queueOK out = true ->
    parenDepth opStack = S d ->
    exists stk2 out1,
      Parser.pop_until_open opStack out = Ok ("(" :: stk2, out1)
      /\ stackOK stk2 = true /\ queueOK out1 = true
      /\ parenDepth stk2 = d.
Proof.
  induction opStack as [|top rest IH]; intros out d Hs Hq Hd.
  - discriminate.
  - simpl in Hs. apply andb_true_iff in Hs as [Htop Hrest].
    cbn [Parser.pop_until_open].
    unfold parenDepth in Hd. simpl in Hd.
    destruct (top =? "(") eqn:Ho; simpl in *.
    + apply String.eqb_eq in Ho. subst top.
      exists rest, out. repeat split; auto.
      all: unfold parenDepth; now inversion Hd.
    + rewrite orb_false_r in Htop.
      destruct (isVaildOp_not_paren top Htop) as (Hf & _ & _). rewrite Hf.
      apply (IH (out ++ [TStr top])%list d Hrest (queueOK_snoc _ _ Hq Htop) Hd).
Qed.

(** On balanced tokens the loop never fails, and it ends with operators
    only on the stack and in the queue. *)
Lemma shunt_inv (tokens : list Token) :
  forall opStack out,
    Forall (fun tk => tokenOK tk = true) tokens ->
    stackOK opStack = true -> queueOK out = true ->
    balancedTokens tokens (parenDepth opStack) = true ->
    exists stk' out',
      Parser.shunt tokens opStack out = Ok (stk', out')
      /\ stackOK stk' = true /\ queueOK out' = true /\ parenDepth stk' = 0.
Proof.
  induction tokens as [|tk tokens IH]; intros opStack out Ht Hs Hq Hb.
  - exists opStack, out. simpl in *. apply Nat.eqb_eq in Hb. auto.
  - inversion Ht as [|? ? Htk Ht']; subst.
    destruct tk as [v | t].
    + simpl. apply IH; auto.
      unfold queueOK. rewrite forallb_app. fold (queueOK out).
      now rewrite Hq.
    + cbn [Parser.shunt Parser.shunt_step]. simpl in Htk, Hb.
      destruct (Parser.isVaildOp t) eqn:Hop.
      * destruct (isVaildOp_not_paren t Hop) as (_ & Ho & Hc).
        rewrite Ho, Hc in Hb.
        destruct (pop_operators_inv t opStack out Hs Hq)
          as (stk1 & out1 & -> & H1 & H2 & H3).
        simpl. apply IH; auto.
        -- simpl. now rewrite Hop, H1.
        -- unfold parenDepth in *. simpl. rewrite Ho. now rewrite H3.
      * simpl in Htk. destruct (t =? "(") eqn:Ho.
        -- simpl. apply IH; auto.
           ++ simpl. now rewrite Ho, orb_true_r, Hs.
           ++ unfold parenDepth in *. simpl. now rewrite Ho.
        -- simpl in Htk. rewrite Htk in Hb.
           destruct (parenDepth opStack) as [|d] eqn:Hd; [discriminate|].
           destruct (pop_until_open_inv opStack out d Hs Hq Hd)
             as (stk2 & out1 & -> & H1 & H2 & H3).
           simpl. apply IH; auto. now rewrite H3.
Qed.

Lemma drain_inv (opStack : list string) :
  forall out,
    stackOK opStack = true -> parenDepth opStack = 0 -> queueOK out = true ->
    exists oq, Parser.drain opStack out = Ok oq /\ queueOK oq = true.
Proof.
  induction opStack as [|o rest IH]; intros out Hs Hd Hq.
  - exists out. auto.
  - simpl in Hs. apply andb_true_iff in Hs as [Ho Hrest].
    unfold parenDepth in Hd. simpl in Hd.
    destruct (o =? "(") eqn:Hp; [discriminate|].
    rewrite orb_false_r in Ho.
    destruct (isVaildOp_not_paren o Ho) as (Hf & _ & _).
    simpl. rewrite Hf.
    apply IH; auto. now apply queueOK_snoc.
Qed.

(** With balanced parentheses, the conversion to postfix succeeds and
    gives numbers and operators only. *)
Lemma toPostfix_inv (s : string) (tokens : list Token) :
  Parser.isValid s = true -> Parser.tokenize s = Ok tokens ->
  exists oq, Parser.toPostfix tokens = Ok oq /\ queueOK oq = true.
Proof.
  intros Hv Ht.
  pose proof (tokenize_tokenOK s tokens Ht) as Hok.
  destruct (proj1 (tokens_balanced s) 0 [] tokens Ht) as (toks & E & Hb).
  simpl in E. subst toks.
  specialize (Hb [] (Forall_nil _)). simpl in Hb.
  unfold Parser.isValid in Hv. rewrite Hv in Hb.
  destruct (shunt_inv tokens [] [] Hok eq_refl eq_refl (eq_sym Hb))
    as (stk' & out' & Hsh & H1 & H2 & H3).
  unfold Parser.toPostfix. rewrite Hsh. simpl.
  now apply drain_inv.
Qed.

(** ** The numbers and the operators that reach the output queue *)

Lemma numbers_app (a b : list Token) :
  numbers (a ++ b) = (numbers a ++ numbers b)%list.
Proof.
  induction a as [|[v|t] a IH]; simpl; [reflexivity | now rewrite IH | exact IH].
Qed.

Lemma countOps_app (a b : list Token) :
  countOps (a ++ b) = countOps a + countOps b.
Proof.
  induction a as [|[v|t] a IH]; simpl; [reflexivity | exact IH | rewrite IH; lia].
Qed.

Lemma pop_operators_counts (tk : string) (opStack : list string) :
  forall out stk1 out1,
    Parser.pop_operators tk opStack out = Ok (stk1, out1) ->
    numbers out1 = numbers out
    /\ countOps out1 + countOps (map TStr stk1)
       = countOps out + countOps (map TStr opStack).
Proof.
  induction opStack as [|top rest IH]; intros out stk1 out1 H.
  - inversion H; subst. auto.
  - cbn [Parser.pop_operators] in H.
    destruct (Parser.isVaildOp top
              && (Parser.precedence tk <=? Parser.precedence top)%nat).
    + destruct (Parser.falsy top); [discriminate|].
      destruct (IH _ _ _ H) as [H1 H2].
      rewrite numbers_app, countOps_app in *. simpl in *.
      rewrite app_nil_r in H1. split; [exact H1 | lia].
    + inversion H; subst. auto.
Qed.

Lemma pop_until_open_counts (opStack : list string) :
  forall out stk1 out1,
    Parser.pop_until_open opStack out = Ok (stk1, out1) ->
    numbers out1 = numbers out
    /\ countOps out1 + countOps (map TStr (Parser.pop stk1))
       = countOps out + countOps (map TStr opStack).
Proof.
  induction opStack as [|top rest IH]; intros out stk1 out1 H.
  - inversion H; subst. auto.
  - cbn [Parser.pop_until_open] in H.
    destruct (top =? "(") eqn:Ho; simpl in H.
    + inversion H; subst. apply String.eqb_eq in Ho. subst top. auto.
    + destruct (Parser.falsy top); [discriminate|].
      destruct (IH _ _ _ H) as [H1 H2].
      rewrite numbers_app, countOps_app in *. simpl in *.
      rewrite app_nil_r in H1. split; [exact H1 | lia].
Qed.

Lemma shunt_counts (tokens : list Token) :
  forall opStack out stk' out',
    Parser.shunt tokens opStack out = Ok (stk', out') ->
    numbers out' = (numbers out ++ numbers tokens)%list
    /\ countOps out' + countOps (map TStr stk')
       = countOps out + countOps (map TStr opStack) + countOps tokens.
Proof.
  induction tokens as [|tk tokens IH]; intros opStack out stk' out' H.
  - inversion H; subst. rewrite app_nil_r. auto.
  - cbn [Parser.shunt] in H. unfold Parser.shunt_step in H.
    destruct tk as [v | t].
    + simpl in H. destruct (IH _ _ _ _ H) as [H1 H2].
      rewrite numbers_app, countOps_app in *. simpl in *.
      rewrite <- app_assoc in H1. split; [exact H1 | lia].
    + destruct (Parser.isVaildOp t) eqn:Hop.
      * destruct (Parser.pop_operators t opStack out) as [[stk1 out1]|err] eqn:Hp;
          [|simpl in H; discriminate].
        simpl in H. destruct (pop_operators_counts _ _ _ _ _ Hp) as [P1 P2].
        destruct (IH _ _ _ _ H) as [H1 H2].
        simpl in *. rewrite Hop in *. rewrite P1 in H1. split; [exact H1 | lia].
      * destruct (t =? "(") eqn:Ho.
        -- simpl in H. destruct (IH _ _ _ _ H) as [H1 H2].
           simpl in *. rewrite Hop in *. split; [exact H1 | lia].
        -- destruct (Parser.pop_until_open opStack out) as [[stk1 out1]|err] eqn:Hp;
             [|simpl in H; discriminate].
           simpl in H. destruct (pop_until_open_counts _ _ _ _ Hp) as [P1 P2].
           destruct (IH _ _ _ _ H) as [H1 H2].
           simpl in *. rewrite Hop in *. rewrite P1 in H1.
           split; [exact H1 | lia].
Qed.

Lemma drain_counts (opStack : list string) :
  forall out oq,
    Parser.drain opStack out = Ok oq ->
    numbers oq = numbers out
    /\ countOps oq = countOps out + countOps (map TStr opStack).
Proof.
  induction opStack as [|o rest IH]; intros out oq H.
  - inversion H; subst. auto.
  - simpl in H. destruct (Parser.falsy o); [discriminate|].
    destruct (IH _ _ H) as [H1 H2].
    rewrite numbers_app, countOps_app in *. simpl in *.
    rewrite app_nil_r in H1. split; [exact H1 | lia].
Qed.

Lemma toPostfix_counts (tokens oq : list Token) :
  Parser.toPostfix tokens = Ok oq ->
  numbers oq = numbers tokens /\ countOps oq = countOps tokens.
Proof.
  unfold Parser.toPostfix. intros H.
  destruct (Parser.shunt tokens [] []) as [[stk out]|err] eqn:Hs;
    [|simpl in H; discriminate].
  simpl in H. destruct (shunt_counts _ _ _ _ _ Hs) as [S1 S2].
  destruct (drain_counts _ _ _ H) as [D1 D2].
  simpl in *. split; [congruence | lia].
Qed.

(* ------------------------------------------------------------------ *)
(** * Further properties: the tree builder                             *)
(* ------------------------------------------------------------------ *)

Lemma build_postorder (t : ASTNode) :
  forall rest astStack,
    Parser.build (postorder t ++ rest) astStack
    = Parser.build rest (t :: astStack).
Proof.
  induction t as [v | l IHl r IHr op]; intros rest astStack; simpl.
  - reflexivity.
  - rewrite <- !app_assoc, IHl, IHr. reflexivity.
Qed.

Lemma build_postorder_inv (oq : list Token) :
  forall astStack astStack',
    Parser.build oq astStack = Ok astStack' ->
    flat_map postorder (rev astStack')
    = (flat_map postorder (rev astStack) ++ oq)%list.
Proof.
  induction oq as [|tk oq IH]; intros astStack astStack' H.
  - inversion H; subst. now rewrite app_nil_r.
  - simpl in H. destruct tk as [v | op].
    + rewrite (IH _ _ H). simpl.
      rewrite flat_map_app, <- app_assoc. reflexivity.
    + destruct astStack as [|r [|l astStack]]; try discriminate.
      rewrite (IH _ _ H). simpl.
      rewrite !flat_map_app, <- !app_assoc. simpl.
      rewrite !app_nil_r, <- !app_assoc. reflexivity.
Qed.

Lemma build_valid (oq : list Token) :
  forall astStack astStack',
    queueOK oq = true ->
    Forall (fun t => validOperators t = true) astStack ->
    Parser.build oq astStack = Ok astStack' ->
    Forall (fun t => validOperators t = true) astStack'.
Proof.
  induction oq as [|tk oq IH]; intros astStack astStack' Hq Hst H.
  - inversion H; subst. exact Hst.
  - simpl in Hq. apply andb_true_iff in Hq as [Htk Hq]. simpl in H.
    destruct tk as [v | op].
    + apply (IH _ _ Hq) in H; auto.
    + destruct astStack as [|r [|l astStack]]; try discriminate.
      inversion Hst as [|? ? Hr Hst']; subst.
      inversion Hst' as [|? ? Hl Hst'']; subst.
      apply (IH _ _ Hq) in H; auto.
      constructor; [|exact Hst'']. simpl. now rewrite Htk, Hl, Hr.
Qed.

Lemma toTree_root (oq : list Token) (t : ASTNode) :
  Parser.toTree oq = Ok t -> Parser.build oq [] = Ok [t].
Proof.
  unfold Parser.toTree. intros H.
  destruct (Parser.build oq []) as [[|node [|node' st]]|err];
    simpl in H; try discriminate.
  now inversion H; subst.
Qed.

Lemma numbers_postorder (t : ASTNode) : numbers (postorder t) = leaves t.
Proof.
  induction t as [v | l IHl r IHr op]; simpl; [reflexivity|].
  rewrite !numbers_app, IHl, IHr. simpl. now rewrite app_nil_r.
Qed.

Lemma countOps_postorder (t : ASTNode) :
  validOperators t = true -> countOps (postorder t) = nodes t.
Proof.
  induction t as [v | l IHl r IHr op]; simpl; [reflexivity|].
  intros H. apply andb_true_iff in H as [H Hr].
  apply andb_true_iff in H as [Hop Hl].
  rewrite !countOps_app, (IHl Hl), (IHr Hr). simpl. rewrite Hop. lia.
Qed.

Lemma leaves_nodes (t : ASTNode) : List.length (leaves t) = S (nodes t).
Proof.
  induction t as [v | l IHl r IHr op]; simpl; [reflexivity|].
  rewrite length_app, IHl, IHr. lia.
Qed.

(** The stages of [parse] once the parentheses are found balanced and the
    tokenizer has succeeded. *)
Lemma parse_stages (expr : string) (tokens : list Token) :
  Parser.isValid (JS.removeWhiteSpace expr) = true ->
  Parser.tokenize (JS.removeWhiteSpace expr) = Ok tokens ->
  exists oq,
    Parser.toPostfix tokens = Ok oq
    /\ queueOK oq = true
    /\ Parser.parse expr = Parser.toTree oq.
Proof.
  intros Hv Ht.
  destruct (toPostfix_inv _ _ Hv Ht) as (oq & Hp & Hq).
  exists oq. repeat split; auto.
  unfold Parser.parse. rewrite Hv, Ht. simpl. now rewrite Hp.
Qed.

Lemma parse_Ok_stages (expr : string) (t : ASTNode) :
  Parser.parse expr = Ok t ->
  exists tokens oq,
    Parser.tokenize (JS.removeWhiteSpace expr) = Ok tokens
    /\ Parser.toPostfix tokens = Ok oq
    /\ queueOK oq = true
    /\ Parser.toTree oq = Ok t.
Proof.
  intros H.
  destruct (Parser.isValid (JS.removeWhiteSpace expr)) eqn:Hv.
  - destruct (Parser.tokenize (JS.removeWhiteSpace expr)) as [tokens|err] eqn:Ht.
    + destruct (parse_stages expr tokens Hv Ht) as (oq & Hp & Hq & E).
      exists tokens, oq. repeat split; auto. now rewrite <- E.
    + unfold Parser.parse in H. rewrite Hv, Ht in H. discriminate.
  - unfold Parser.parse in H. rewrite Hv in H. discriminate.
Qed.

Lemma evaluate_valid (t : ASTNode) :
  validOperators t = true ->
  (exists v, evaluate t = Ok v) \/ evaluate t = Err DivisionByZero.
Proof.
  induction t as [v | l IHl r IHr op]; simpl; intros H.
  - left. now exists (VNumber v).
  - apply andb_true_iff in H as [H Hr].
    apply andb_true_iff in H as [Hop Hl].
    destruct (IHl Hl) as [[lv ->] | ->]; [|now right].
    destruct (IHr Hr) as [[rv ->] | ->]; [|now right].
    simpl. apply isVaildOp_cases in Hop.
    repeat (destruct Hop as [-> | Hop]); try subst op; simpl;
      try (left; eexists; reflexivity).
    destruct (strictEquals rv (VNumber JS.zero));
      [now right | left; eexists; reflexivity].
Qed.

(* ------------------------------------------------------------------ *)
(** * Further properties: [parse] as a whole                           *)
(* ------------------------------------------------------------------ *)

(** X3. [parse] fails in four ways only: InvalidParentheses,
    UnexpectedToken, InsufficientOperands and InvalidExpression. The
    checks of the operator stack ('Invalid operator stack state') never
    fire. *)
Theorem parse_error_kinds :
  forall (expr : string) (e : Error),
    Parser.parse expr = Err e ->
    e = InvalidParentheses
    \/ (exists c i, e = UnexpectedToken c i)
    \/ e = InsufficientOperands
    \/ e = InvalidExpression.
Proof.
  intros expr e H.
  destruct (Parser.isValid (JS.removeWhiteSpace expr)) eqn:Hv.
  - destruct (Parser.tokenize (JS.removeWhiteSpace expr)) as [tokens|err] eqn:Ht.
    + destruct (parse_stages expr tokens Hv Ht) as (oq & Hp & Hq & E).
      rewrite E in H. unfold Parser.toTree in H.
      pose proof (build_fails oq []) as Hb.
      destruct (Parser.build oq []) as [astStack|err]; simpl in *.
      * destruct astStack as [|node [|node' astStack]]; inversion H; auto.
      * inversion H; subst. auto.
    + unfold Parser.parse in H. rewrite Hv, Ht in H. simpl in H.
      inversion H; subst.
      pose proof (proj1 (tokenize_from_fails (JS.removeWhiteSpace expr)) 0 [])
        as Hf.
      unfold Parser.tokenize in Ht. rewrite Ht in Hf. simpl in Hf. auto.
  - unfold Parser.parse in H. rewrite Hv in H. inversion H. auto.
Qed.

Lemma parse_error_kinds_witness :
  InsufficientOperands = InvalidParentheses
  \/ (exists c i, InsufficientOperands = UnexpectedToken c i)
  \/ InsufficientOperands = InsufficientOperands
  \/ InsufficientOperands = InvalidExpression.
Proof.
  exact (parse_error_kinds "2 * (3 + )" InsufficientOperands eq_refl).
Defined.

Lemma parse_Ok_valid (expr : string) (t : ASTNode) :
  Parser.parse expr = Ok t -> validOperators t = true.
Proof.
  intros H.
  destruct (parse_Ok_stages expr t H) as (tokens & oq & Ht & Hp & Hq & Hr).
  apply toTree_root in Hr.
  pose proof (build_valid oq [] [t] Hq (Forall_nil _) Hr) as Hv.
  now inversion Hv; subst.
Qed.

(** X4. Every operator of a tree returned by [parse] is one of the seven
    operators: no parenthesis ends in the tree. Evaluating such a tree
    therefore returns a value or fails with DivisionByZero, never with
    UnknownOperator. *)
Theorem parse_valid_operators :
  forall (expr : string) (t : ASTNode),
    Parser.parse expr = Ok t ->
    validOperators t = true
    /\ ((exists v, evaluate t = Ok v) \/ evaluate t = Err DivisionByZero).
Proof.
  intros expr t H. pose proof (parse_Ok_valid expr t H) as Hv.
  split; [assumption | now apply evaluate_valid].
Qed.

Lemma parse_valid_operators_witness :
  validOperators
    (BinaryOperationNode
       (BinaryOperationNode (NumberNode (JS.of_Z 2)) (NumberNode (JS.of_Z 3)) "<")
       (NumberNode (JS.of_Z 0)) "/") = true.
Proof.
  exact (proj1 (parse_valid_operators "(2 < 3) / 0" _ eq_refl)).
Defined.

Lemma toTree_Ok_postorder (oq : list Token) (t : ASTNode) :
  Parser.toTree oq = Ok t -> oq = postorder t.
Proof.
  intros H. apply toTree_root in H.
  apply build_postorder_inv in H. simpl in H.
  now rewrite app_nil_r in H.
Qed.

Lemma toTree_of_postorder (t : ASTNode) : Parser.toTree (postorder t) = Ok t.
Proof.
  unfold Parser.toTree.
  rewrite <- (app_nil_r (postorder t)), build_postorder. reflexivity.
Qed.

(** X5. The tree builder inverts the postfix form: the build of a queue
    succeeds with root [t] exactly when the queue is the postfix form of
    [t] (left operand, right operand, operator). *)
Theorem toTree_postorder :
  forall (outputQueue : list Token) (t : ASTNode),
    Parser.toTree outputQueue = Ok t <-> outputQueue = postorder t.
Proof.
  intros oq t. split; [apply toTree_Ok_postorder|].
  intros ->. apply toTree_of_postorder.
Qed.

Lemma toTree_postorder_witness :
  [TNum (JS.of_Z 1); TNum (JS.of_Z 2); TNum (JS.of_Z 3); TStr "*"; TStr "+"]
  = postorder
      (BinaryOperationNode
         (NumberNode (JS.of_Z 1))
         (BinaryOperationNode (NumberNode (JS.of_Z 2))
                              (NumberNode (JS.of_Z 3)) "*") "+").
Proof.
  exact (proj1 (toTree_postorder
                  [TNum (JS.of_Z 1); TNum (JS.of_Z 2); TNum (JS.of_Z 3);
                   TStr "*"; TStr "+"] _) eq_refl).
Defined.

(** X6. [parse] keeps the operands in their order and drops nothing: the
    numbers of the tree, from left to right, are the number tokens of the
    input, and the tree has one binary node per operator token. An input
    that parses has therefore exactly one number more than it has
    operators. *)
Theorem parse_keeps_operands :
  forall (expr : string) (t : ASTNode),
    Parser.parse expr = Ok t ->
    exists tokens,
      Parser.tokenize (JS.removeWhiteSpace expr) = Ok tokens
      /\ leaves t = numbers tokens
      /\ nodes t = countOps tokens
      /\ List.length (numbers tokens) = S (countOps tokens).
Proof.
  intros expr t H.
  destruct (parse_Ok_stages expr t H) as (tokens & oq & Ht & Hp & Hq & Hr).
  destruct (toPostfix_counts _ _ Hp) as [Hn Hc].
  pose proof (parse_Ok_valid expr t H) as Hv.
  apply toTree_Ok_postorder in Hr. subst oq.
  rewrite numbers_postorder in Hn. rewrite (countOps_postorder t Hv) in Hc.
  exists tokens. repeat split; auto.
  rewrite <- Hn, <- Hc. apply leaves_nodes.
Qed.

Lemma parse_keeps_operands_witness :
  exists tokens,
    Parser.tokenize "8-(2+3)*4" = Ok tokens
    /\ [JS.of_Z 8; JS.of_Z 2; JS.of_Z 3; JS.of_Z 4] = numbers tokens
    /\ 3 = countOps tokens
    /\ List.length (numbers tokens) = S (countOps tokens).
Proof.
  exact (parse_keeps_operands " 8 - (2 + 3) * 4" _ eq_refl).
Defined.

(* ------------------------------------------------------------------ *)
(** * Further properties: deserialize                                  *)
(* ------------------------------------------------------------------ *)

(** X7. [deserialize] is undone by [serialize]: a tree it returns
    serialises to the object it was given. It succeeds exactly when every
    node of the object is tagged NumberNode or BinaryOperationNode, and
    its only error is UnrecognizedNodeType. *)
Theorem serialize_deserialize :
  forall serial : SerializedASTNode,
    (forall t, Parser.deserialize serial = Ok t -> serialize t = serial)
    /\ ((exists t, Parser.deserialize serial = Ok t) <-> recognized serial = true)
    /\ (forall e, Parser.deserialize serial = Err e -> e = UnrecognizedNodeType).
Proof.
  induction serial as [v | op l IHl r IHr | tag]; simpl.
  - split; [|split].
    + intros t H. now inversion H.
    + split; [reflexivity | intros _; eauto].
    + discriminate.
  - destruct IHl as (L1 & L2 & L3). destruct IHr as (R1 & R2 & R3).
    destruct (Parser.deserialize l) as [tl|el]; simpl.
    + destruct (Parser.deserialize r) as [tr|er]; simpl.
      * split; [|split].
        -- intros t H. inversion H; subst. simpl.
           now rewrite (L1 tl eq_refl), (R1 tr eq_refl).
        -- split; [intros _ | intros _; eauto].
           rewrite (proj1 L2), (proj1 R2); eauto.
        -- discriminate.
      * split; [|split].
        -- discriminate.
        -- split; [intros [t H]; discriminate|].
           intros H. apply andb_true_iff in H as [_ H].
           apply R2 in H as [t H]. discriminate.
        -- intros e H. inversion H; subst. now apply R3.
    + split; [|split].
      * discriminate.
      * split; [intros [t H]; discriminate|].
        intros H. apply andb_true_iff in H as [H _].
        apply L2 in H as [t H]. discriminate.
      * intros e H. inversion H; subst. now apply L3.
  - split; [|split].
    + discriminate.
    + split; [intros [t H]; discriminate | discriminate].
    + intros e H. now inversion H.
Qed.

Lemma serialize_deserialize_witness :
  serialize (BinaryOperationNode (NumberNode (JS.of_Z 2))
                                 (NumberNode (JS.of_Z 8)) "*")
  = SerializedBinary "*" (SerializedNumber (JS.of_Z 2))
                         (SerializedNumber (JS.of_Z 8)).
Proof.
  exact (proj1 (serialize_deserialize
                  (SerializedBinary "*" (SerializedNumber (JS.of_Z 2))
                                        (SerializedNumber (JS.of_Z 8))))
               _ eq_refl).
Defined.

(* ------------------------------------------------------------------ *)
(** * Further properties: white space and parentheses                  *)
(* ------------------------------------------------------------------ *)

Lemma removeWhiteSpace_app (a b : string) :
  JS.removeWhiteSpace (a ++ b)
  = JS.removeWhiteSpace a ++ JS.removeWhiteSpace b.
Proof.
  induction a as [|c a IH]; simpl; [reflexivity|].
  destruct (JS.isWhiteSpace c); simpl; now rewrite IH.
Qed.

Lemma removeWhiteSpace_allWhiteSpace (w : string) :
  allWhiteSpace w = true -> JS.removeWhiteSpace w = EmptyString.
Proof.
  induction w as [|c w IH]; simpl; [reflexivity|].
  intros H. apply andb_true_iff in H as [Hc Hw]. rewrite Hc. now apply IH.
Qed.

Lemma removeWhiteSpace_idempotent (s : string) :
  JS.removeWhiteSpace (JS.removeWhiteSpace s) = JS.removeWhiteSpace s.
Proof.
  induction s as [|c s IH]; simpl; [reflexivity|].
  destruct (JS.isWhiteSpace c) eqn:Hc; simpl; [exact IH|].
  now rewrite Hc, IH.
Qed.

(** X8. White space counts nowhere: inserting a run of white space at any
    place of the input, also inside a number, leaves the result of
    [parse] unchanged, and so does removing all of it beforehand. *)
Theorem parse_ignores_white_space :
  (forall a w b,
      allWhiteSpace w = true ->
      Parser.parse (a ++ w ++ b) = Parser.parse (a ++ b))
  /\ (forall expr, Parser.parse (JS.removeWhiteSpace expr) = Parser.parse expr).
Proof.
  split.
  - intros a w b Hw. unfold Parser.parse.
    rewrite !removeWhiteSpace_app, (removeWhiteSpace_allWhiteSpace w Hw).
    reflexivity.
  - intros expr. unfold Parser.parse.
    now rewrite removeWhiteSpace_idempotent.
Qed.

Lemma parse_ignores_white_space_witness :
  Parser.parse ("1" ++ "  " ++ "2+3") = Parser.parse ("1" ++ "2+3").
Proof.
  exact (proj1 parse_ignores_white_space "1" "  " "2+3" eq_refl).
Defined.

Lemma isValid_loop_app (a : string) :
  forall stack,
    Parser.isValid_loop a stack = true ->
    forall b below,
      Parser.isValid_loop (a ++ b) (stack ++ below)
      = Parser.isValid_loop b below.
Proof.
  induction a as [|c a IH]; intros stack H b below.
  - simpl in H. destruct stack; [reflexivity | discriminate].
  - simpl in *. destruct (Ascii.eqb c "(").
    + apply (IH (c :: stack) H).
    + destruct (Parser.closeToOpen c) as [o|].
      * destruct stack as [|top stack]; [discriminate|]. simpl.
        destruct (Ascii.eqb top o); [now apply IH | discriminate].
      * now apply IH.
Qed.

(** X9. Balanced strings compose: after a string that [isValid] accepts,
    what follows is judged on its own, and a string that [isValid]
    accepts is still accepted within a pair of parentheses. *)
Theorem isValid_compose :
  forall a : string,
    Parser.isValid a = true ->
    (forall b, Parser.isValid (a ++ b) = Parser.isValid b)
    /\ Parser.isValid ("(" ++ a ++ ")") = true.
Proof.
  intros a Ha. unfold Parser.isValid in *. split.
  - intros b. apply (isValid_loop_app a [] Ha b []).
  - pose proof (isValid_loop_app a [] Ha ")" ["("%char]) as H.
    simpl in *. now rewrite H.
Qed.

Lemma isValid_compose_witness :
  (forall b, Parser.isValid ("(1+2)*(3)" ++ b) = Parser.isValid b)
  /\ Parser.isValid ("(" ++ "(1+2)*(3)" ++ ")") = true.
Proof.
  exact (isValid_compose "(1+2)*(3)" eq_refl).
Defined.

(* ------------------------------------------------------------------ *)
(** * Further properties: evaluate                                     *)
(* ------------------------------------------------------------------ *)

Lemma strictEquals_zero (v : Value) :
  strictEquals v (VNumber JS.zero) = true ->
  exists s, v = VNumber (S754_zero s).
Proof.
  destruct v as [x | b]; simpl; [|discriminate].
  rewrite equal_zero. destruct x; try discriminate. eauto.
Qed.

Lemma subtree_valid (s t : ASTNode) :
  subtree s t -> validOperators t = true -> validOperators s = true.
Proof.
  induction 1 as [| l r op Hs IH | l r op Hs IH]; simpl; intros H; auto.
  - apply andb_true_iff in H as [H _]. apply andb_true_iff in H as [_ H]. auto.
  - apply andb_true_iff in H as [_ H]. auto.
Qed.

Lemma subtree_fails (s t : ASTNode) :
  subtree s t -> validOperators t = true ->
  evaluate s = Err DivisionByZero -> evaluate t = Err DivisionByZero.
Proof.
  induction 1 as [| l r op Hs IH | l r op Hs IH]; simpl; intros Hv He; auto.
  - apply andb_true_iff in Hv as [Hv _]. apply andb_true_iff in Hv as [_ Hl].
    now rewrite (IH Hl He).
  - apply andb_true_iff in Hv as [Hv Hr]. apply andb_true_iff in Hv as [_ Hl].
    destruct (evaluate_valid l Hl) as [[lv ->] | ->]; [|reflexivity].
    simpl. now rewrite (IH Hr He).
Qed.

(** X10. On a tree whose operators are among the seven (every tree
    [parse] returns), [evaluate] fails exactly when the tree contains a
    division whose two operands evaluate and whose right operand
    evaluates to the number 0: a failure anywhere in the tree is a failure
    of the whole, and nothing else fails. *)
Theorem evaluate_fails_iff :
  forall t : ASTNode,
    validOperators t = true ->
    (evaluate t = Err DivisionByZero
     <-> exists l r lv s,
           subtree (BinaryOperationNode l r "/") t
           /\ evaluate l = Ok lv
           /\ evaluate r = Ok (VNumber (S754_zero s))).
Proof.
  intros t Hv. split.
  - induction t as [v | l IHl r IHr op]; simpl; [discriminate|].
    simpl in Hv. apply andb_true_iff in Hv as [Hv Hr].
    apply andb_true_iff in Hv as [Hop Hl].
    destruct (evaluate l) as [lv|el] eqn:El; simpl.
    + destruct (evaluate r) as [rv|er] eqn:Er; simpl.
      * apply isVaildOp_cases in Hop.
        repeat (destruct Hop as [-> | Hop]); try subst op; simpl;
          try discriminate.
        destruct (strictEquals rv (VNumber JS.zero)) eqn:Hz; [|discriminate].
        intros _. apply strictEquals_zero in Hz as [s ->].
        exists l, r, lv, s. repeat split; auto. constructor.
      * intros H. inversion H; subst.
        destruct (IHr Hr eq_refl) as (l0 & r0 & lv0 & s & Hs & H1 & H2).
        exists l0, r0, lv0, s. repeat split; auto. now apply subtree_right.
    + intros H. inversion H; subst.
      destruct (IHl Hl eq_refl) as (l0 & r0 & lv0 & s & Hs & H1 & H2).
      exists l0, r0, lv0, s. repeat split; auto. now apply subtree_left.
  - intros (l & r & lv & s & Hs & Hl & Hr).
    apply (subtree_fails _ _ Hs Hv). simpl. rewrite Hl, Hr.
    destruct s; reflexivity.
Qed.

Lemma evaluate_fails_iff_witness :
  evaluate (BinaryOperationNode
              (NumberNode (JS.of_Z 1))
              (BinaryOperationNode (NumberNode (JS.of_Z 4))
                                   (NumberNode (JS.of_Z 0)) "/") "+")
  = Err DivisionByZero.
Proof.
  refine (proj2 (evaluate_fails_iff
                   (BinaryOperationNode
                      (NumberNode (JS.of_Z 1))
                      (BinaryOperationNode (NumberNode (JS.of_Z 4))
                                           (NumberNode (JS.of_Z 0)) "/") "+")
                   eq_refl) _).
  exists (NumberNode (JS.of_Z 4)), (NumberNode (JS.of_Z 0)),
         (VNumber (JS.of_Z 4)), false.
  split; [apply subtree_right; apply subtree_here | split; reflexivity].
Defined.

(* ------------------------------------------------------------------ *)
(** * Further properties: printing and parsing again                   *)
(* ------------------------------------------------------------------ *)

Lemma same_eq (x y : JS.number) : JS.same x y = true -> x = y.
Proof.
  destruct x as [sx | sx | | sx mx ex], y as [sy | sy | | sy my ey];
    simpl; intros H; try discriminate; try reflexivity.
  - apply Bool.eqb_prop in H. now subst.
  - apply Bool.eqb_prop in H. now subst.
  - apply andb_true_iff in H as [H He]. apply andb_true_iff in H as [Hs Hm].
    apply Bool.eqb_prop in Hs. apply Pos.eqb_eq in Hm. apply Z.eqb_eq in He.
    now subst.
Qed.

Lemma numberChar_not_space (c : ascii) :
  Parser.isNumberChar c = true -> JS.isWhiteSpace c = false.
Proof.
  intros H.
  destruct c as [[] [] [] [] [] [] [] []]; try reflexivity;
    vm_compute in H; discriminate.
Qed.

Lemma removeWhiteSpace_run (s : string) :
  allNumberChars s = true -> JS.removeWhiteSpace s = s.
Proof.
  induction s as [|c s IH]; simpl; [reflexivity|].
  intros H. apply andb_true_iff in H as [Hc Hs].
  now rewrite (numberChar_not_space c Hc), (IH Hs).
Qed.

Lemma reparses_run (v : JS.number) :
  reparses v = true ->
  exists c run, JS.toString v = String c run
                /\ allNumberChars (String c run) = true
                /\ JS.parseFloat (String c run) = v.
Proof.
  unfold reparses. intros H.
  apply andb_true_iff in H as [H Hsame].
  apply andb_true_iff in H as [Hall Hlen].
  apply same_eq in Hsame.
  destruct (JS.toString v) as [|c run]; [discriminate|].
  exists c, run. auto.
Qed.

Lemma removeWhiteSpace_print (t : ASTNode) :
  printable t = true -> JS.removeWhiteSpace (print t) = compact t.
Proof.
  induction t as [v | l IHl r IHr op]; intros H.
  - simpl in *. destruct (reparses_run v H) as (c & run & E & Hrun & _).
    rewrite E. now apply removeWhiteSpace_run.
  - simpl in H. apply andb_true_iff in H as [H Hr].
    apply andb_true_iff in H as [Hop Hl].
    cbn [print compact].
    rewrite !removeWhiteSpace_app, (IHl Hl), (IHr Hr).
    apply isVaildOp_cases in Hop.
    repeat (destruct Hop as [-> | Hop]); try subst op; reflexivity.
Qed.

Lemma isValid_loop_compact (t : ASTNode) :
  printable t = true ->
  forall rest stack,
    Parser.isValid_loop (compact t ++ rest) stack
    = Parser.isValid_loop rest stack.
Proof.
  induction t as [v | l IHl r IHr op]; intros H rest stack.
  - simpl in *. destruct (reparses_run v H) as (c & run & E & Hrun & _).
    rewrite E. now apply isValid_loop_run.
  - simpl in H. apply andb_true_iff in H as [H Hr].
    apply andb_true_iff in H as [Hop Hl].
    cbn [compact]. rewrite !string_app_assoc. simpl.
    rewrite (IHl Hl).
    apply isVaildOp_cases in Hop.
    repeat (destruct Hop as [-> | Hop]); try subst op; simpl;
      rewrite (IHr Hr); reflexivity.
Qed.

Lemma tokenize_compact (t : ASTNode) :
  printable t = true ->
  forall rest i res,
    startsClean rest = true ->
    exists j,
      Parser.tokenize_from (compact t ++ rest) i res
      = Parser.tokenize_from rest j (res ++ infixTokens t).
Proof.
  induction t as [v | l IHl r IHr op]; intros H rest i res Hrest.
  - simpl in *. destruct (reparses_run v H) as (c & run & E & Hrun & Hv).
    rewrite E, (tokenize_run c run rest i res Hrun Hrest), Hv. eauto.
  - simpl in H. apply andb_true_iff in H as [H Hr].
    apply andb_true_iff in H as [Hop Hl].
    cbn [compact infixTokens]. rewrite !string_app_assoc. simpl.
    rewrite tokenize_symbol by reflexivity.
    assert (Hclean : startsClean (op ++ compact r ++ String ")" rest) = true).
    { apply isVaildOp_cases in Hop.
      repeat (destruct Hop as [-> | Hop]); try subst op; reflexivity. }
    destruct (IHl Hl _ (S i) (res ++ [TStr "("])%list Hclean) as [j1 ->].
    assert (Hsym : Parser.tokenize_from (op ++ compact r ++ String ")" rest) j1
                     ((res ++ [TStr "("]) ++ infixTokens l)
                   = Parser.tokenize_from (compact r ++ String ")" rest) (S j1)
                       (((res ++ [TStr "("]) ++ infixTokens l) ++ [TStr op])).
    { apply isVaildOp_cases in Hop.
      repeat (destruct Hop as [-> | Hop]); try subst op;
        apply tokenize_symbol; reflexivity. }
    rewrite Hsym.
    destruct (IHr Hr (String ")" rest) (S j1)
                (((res ++ [TStr "("]) ++ infixTokens l) ++ [TStr op])%list
                eq_refl) as [j2 ->].
    rewrite tokenize_symbol by reflexivity.
    exists (S j2). f_equal. rewrite <- !app_assoc. reflexivity.
Qed.

Lemma shunt_infix (t : ASTNode) :
  printable t = true ->
  forall rest opStack out,
    Parser.shunt (infixTokens t ++ rest) opStack out
    = Parser.shunt rest opStack (out ++ postorder t).
Proof.
  induction t as [v | l IHl r IHr op]; intros H rest opStack out.
  - reflexivity.
  - simpl in H. apply andb_true_iff in H as [H Hr].
    apply andb_true_iff in H as [Hop Hl].
    cbn [infixTokens postorder].
    change ((TStr "(" :: infixTokens l ++ TStr op :: infixTokens r ++ [TStr ")"])
              ++ rest)%list
      with (TStr "(" :: (infixTokens l ++ TStr op :: infixTokens r ++ [TStr ")"])
              ++ rest)%list.
    cbn [Parser.shunt]. simpl Parser.shunt_step. cbn [bind fst snd].
    rewrite <- app_assoc, (IHl Hl). simpl app.
    cbn [Parser.shunt]. unfold Parser.shunt_step at 1. rewrite Hop.
    cbn [Parser.pop_operators]. change (Parser.isVaildOp "(") with false.
    cbn [andb bind fst snd].
    rewrite <- app_assoc, (IHr Hr). simpl app.
    cbn [Parser.shunt]. simpl Parser.shunt_step.
    destruct (isVaildOp_not_paren op Hop) as (Hf & Ho & _).
    rewrite Ho, Hf. simpl.
    rewrite <- !app_assoc. reflexivity.
Qed.

(** X11. Printing and parsing again gives the tree back: when the
    operators of a tree are among the seven and each of its numbers prints
    as a run of digits and points that [parseFloat] reads back as the
    number, [parse (print t)] is [t], whatever the operators and their
    precedences, the printed form being fully parenthesised. *)
Theorem parse_print :
  forall t : ASTNode,
    printable t = true -> Parser.parse (print t) = Ok t.
Proof.
  intros t H. unfold Parser.parse.
  rewrite (removeWhiteSpace_print t H).
  unfold Parser.isValid.
  rewrite <- (string_app_nil_r (compact t)) at 1.
  rewrite (isValid_loop_compact t H). simpl.
  unfold Parser.tokenize.
  destruct (tokenize_compact t H EmptyString 0 [] eq_refl) as [j Ht].
  rewrite string_app_nil_r in Ht. rewrite Ht. simpl.
  unfold Parser.toPostfix.
  rewrite <- (app_nil_r (infixTokens t)), (shunt_infix t H). simpl.
  apply toTree_of_postorder.
Qed.

Lemma parse_print_witness :
  Parser.parse
    (print (BinaryOperationNode
              (BinaryOperationNode (NumberNode (JS.of_Z 1))
                                   (NumberNode (JS.of_decimal 25 (-1))) "<")
              (NumberNode (JS.of_Z 3)) "+"))
  = Ok (BinaryOperationNode
          (BinaryOperationNode (NumberNode (JS.of_Z 1))
                               (NumberNode (JS.of_decimal 25 (-1))) "<")
          (NumberNode (JS.of_Z 3)) "+").
Proof.
  apply parse_print. vm_compute. reflexivity.
Defined.

(* ------------------------------------------------------------------ *)
(** * Further properties: comparisons                                  *)
(* ------------------------------------------------------------------ *)

Lemma pop_operators_cmp (o : CmpOp) (t : Term) (out : list Token) :
  Parser.pop_operators (cmpSym o) (pendingT t) out
  = Ok ([], (out ++ map TStr (pendingT t))%list).
Proof.
  destruct t as [f | t' o' f]; simpl pendingT.
  - simpl. now rewrite app_nil_r.
  - destruct o, o'; reflexivity.
Qed.

(** X12. A comparison of a product (a term of the grammar) with a
    number or a parenthesised expression (a factor) parses to the
    comparison node of their two trees, and, no division by 0 occurring,
    evaluates to the boolean that compares their values: [<] and [>]
    order the two numbers, [=] tests their equality. *)
Theorem parse_comparison :
  forall (t : Term) (o : CmpOp) (f : Factor) (expr : string),
    wfT t = true -> wfF f = true ->
    JS.removeWhiteSpace expr = showT t ++ cmpSym o ++ showF f ->
    Parser.parse expr
    = Ok (BinaryOperationNode (treeT t) (treeF f) (cmpSym o))
    /\ (safeT t = true -> safeF f = true ->
        evaluate (BinaryOperationNode (treeT t) (treeF f) (cmpSym o))
        = Ok (VBoolean (applyCmp o (valueT t) (valueF f)))).
Proof.
  intros t o f expr Ht Hf Hs. split.
  - unfold Parser.parse. rewrite Hs.
    assert (Hv : Parser.isValid (showT t ++ cmpSym o ++ showF f) = true).
    { unfold Parser.isValid.
      rewrite (proj1 (proj2 isValid_loop_show) t Ht).
      rewrite <- (string_app_nil_r (showF f)).
      destruct o; simpl;
        now rewrite (proj2 (proj2 isValid_loop_show) f Hf). }
    rewrite Hv. simpl.
    assert (Htok : Parser.tokenize (showT t ++ cmpSym o ++ showF f)
                   = Ok (tokensT t ++ TStr (cmpSym o) :: tokensF f)%list).
    { unfold Parser.tokenize.
      destruct (proj1 (proj2 tokenize_show) t Ht (cmpSym o ++ showF f) 0 [])
        as [j1 ->]; [destruct o; reflexivity|].
      assert (Hop : Parser.tokenize_from (cmpSym o ++ showF f) j1 ([] ++ tokensT t)
                    = Parser.tokenize_from (showF f) (S j1)
                        (([] ++ tokensT t) ++ [TStr (cmpSym o)]))
        by (destruct o; apply tokenize_symbol; reflexivity).
      rewrite Hop.
      destruct (proj2 (proj2 tokenize_show) f Hf EmptyString (S j1)
                  (([] ++ tokensT t) ++ [TStr (cmpSym o)])%list eq_refl)
        as [j2 H2].
      rewrite string_app_nil_r in H2. rewrite H2. simpl.
      now rewrite <- app_assoc. }
    rewrite Htok. simpl.
    assert (Hpost : Parser.toPostfix (tokensT t ++ TStr (cmpSym o) :: tokensF f)
                    = Ok (postfixT t ++ postfixF f ++ [TStr (cmpSym o)])%list).
    { unfold Parser.toPostfix.
      rewrite shunt_app, (proj1 (proj2 shunt_tokens) t [] [] eq_refl).
      simpl. replace (Parser.isVaildOp (cmpSym o)) with true by now destruct o.
      rewrite app_nil_r, pop_operators_cmp. simpl.
      rewrite emitted_pendingT, (proj2 (proj2 shunt_tokens) f). simpl.
      replace (Parser.falsy (cmpSym o)) with false by now destruct o.
      now rewrite <- app_assoc. }
    rewrite Hpost. simpl. unfold Parser.toTree.
    rewrite (proj1 (proj2 build_postfix) t), (proj2 (proj2 build_postfix) f).
    reflexivity.
  - intros Hst Hsf. simpl.
    rewrite (proj1 (proj2 evaluate_tree) t Hst),
            (proj2 (proj2 evaluate_tree) f Hsf).
    destruct o; reflexivity.
Qed.

Lemma parse_comparison_witness :
  Parser.parse "2 * 3 < (4 + 3)"
  = Ok (BinaryOperationNode
          (treeT (TBin (TFactor (FNum (LInt "2"))) OpMul (FNum (LInt "3"))))
          (treeF (FParen (EBin (ETerm (TFactor (FNum (LInt "4")))) OpAdd
                               (TFactor (FNum (LInt "3"))))))
          "<").
Proof.
  exact (proj1 (parse_comparison
                  (TBin (TFactor (FNum (LInt "2"))) OpMul (FNum (LInt "3")))
                  OpLt
                  (FParen (EBin (ETerm (TFactor (FNum (LInt "4")))) OpAdd
                                (TFactor (FNum (LInt "3")))))
                  "2 * 3 < (4 + 3)" eq_refl eq_refl eq_refl)).
Defined.

(* ------------------------------------------------------------------ *)
(** * Further properties: parentheses around an input                  *)
(* ------------------------------------------------------------------ *)

(** The tokens of a string followed by a string that does not start with
    a number character: those of the first, then those of the second. *)
Lemma tokenize_from_app (a b : string) :
  startsClean b = true ->
  (forall i res out,
      Parser.tokenize_from a i res = Ok out ->
      exists j, Parser.tokenize_from (a ++ b) i res
                = Parser.tokenize_from b j out)
  /\ (forall res num j0 out,
      Parser.scan res num a j0 = Ok out ->
      exists j, Parser.scan res num (a ++ b) j0
                = Parser.tokenize_from b j out).
Proof.
  intros Hb. induction a as [|c a [IHt IHs]].
  - split.
    + intros i res out H. inversion H; subst. now exists i.
    + intros res num j0 out H. rewrite scan_nil in H. inversion H; subst.
      simpl. destruct b as [|d b]; [now exists j0|].
      simpl in Hb. apply negb_true_iff in Hb.
      rewrite scan_cons, Hb. now exists j0.
  - assert (Ht : forall i res out,
               Parser.tokenize_from (String c a) i res = Ok out ->
               exists j, Parser.tokenize_from (String c a ++ b) i res
                         = Parser.tokenize_from b j out).
    { intros i res out H. simpl. rewrite tokenize_from_cons in *.
      destruct (Parser.isNumberChar c); [now apply IHs|].
      destruct (Parser.isSymbolChar c); [now apply IHt | discriminate]. }
    split; [exact Ht|].
    intros res num j0 out H. simpl. rewrite scan_cons in *.
    destruct (Parser.isNumberChar c); [now apply IHs | now apply Ht].
Qed.

Lemma pop_operators_frame (tk : string) (opStack below : list string) :
  forall out stk1 out1,
    Parser.pop_operators tk opStack out = Ok (stk1, out1) ->
    Parser.pop_operators tk (opStack ++ "(" :: below) out
    = Ok (stk1 ++ "(" :: below, out1)%list.
Proof.
  induction opStack as [|top rest IH]; intros out stk1 out1 H.
  - inversion H; subst. reflexivity.
  - cbn [Parser.pop_operators app] in *.
    destruct (Parser.isVaildOp top
              && (Parser.precedence tk <=? Parser.precedence top)%nat).
    + destruct (Parser.falsy top); [discriminate | now apply IH].
    + inversion H; subst. reflexivity.
Qed.

Lemma pop_until_open_frame (opStack frame : list string) :
  forall out stk2 out1,
    Parser.pop_until_open opStack out = Ok ("(" :: stk2, out1) ->
    Parser.pop_until_open (opStack ++ frame) out
    = Ok ("(" :: stk2 ++ frame, out1)%list.
Proof.
  induction opStack as [|top rest IH]; intros out stk2 out1 H.
  - inversion H.
  - cbn [Parser.pop_until_open app] in *.
    destruct (negb (top =? "(")).
    + destruct (Parser.falsy top); [discriminate | now apply IH].
    + inversion H; subst. reflexivity.
Qed.

(** The loop on balanced tokens does not look below the stack it starts
    with. *)
Lemma shunt_frame (tokens : list Token) (below : list string) :
  forall opStack out,
    Forall (fun tk => tokenOK tk = true) tokens ->
    stackOK opStack = true -> queueOK out = true ->
    balancedTokens tokens (parenDepth opStack) = true ->
    exists stk' out',
      Parser.shunt tokens opStack out = Ok (stk', out')
      /\ Parser.shunt tokens (opStack ++ "(" :: below) out
         = Ok (stk' ++ "(" :: below, out')%list
      /\ stackOK stk' = true /\ queueOK out' = true /\ parenDepth stk' = 0.
Proof.
  induction tokens as [|tk tokens IH]; intros opStack out Ht Hs Hq Hb.
  - exists opStack, out. simpl in *. apply Nat.eqb_eq in Hb. auto.
  - inversion Ht as [|? ? Htk Ht']; subst.
    cbn [Parser.shunt]. unfold Parser.shunt_step.
    destruct tk as [v | t].
    + simpl. apply IH; auto.
      unfold queueOK. rewrite forallb_app. fold (queueOK out).
      now rewrite Hq.
    + simpl in Htk, Hb.
      destruct (Parser.isVaildOp t) eqn:Hop.
      * destruct (isVaildOp_not_paren t Hop) as (_ & Ho & Hc).
        rewrite Ho, Hc in Hb.
        destruct (pop_operators_inv t opStack out Hs Hq)
          as (stk1 & out1 & Hp & H1 & H2 & H3).
        rewrite (pop_operators_frame _ _ below _ _ _ Hp), Hp. simpl.
        apply (IH (t :: stk1) out1); auto.
        -- simpl. now rewrite Hop, H1.
        -- unfold parenDepth in *. simpl. rewrite Ho. now rewrite H3.
      * simpl in Htk. destruct (t =? "(") eqn:Ho.
        -- simpl. apply (IH (t :: opStack) out); auto.
           ++ simpl. now rewrite Ho, orb_true_r, Hs.
           ++ unfold parenDepth in *. simpl. now rewrite Ho.
        -- simpl in Htk. rewrite Htk in Hb.
           destruct (parenDepth opStack) as [|d] eqn:Hd; [discriminate|].
           destruct (pop_until_open_inv opStack out d Hs Hq Hd)
             as (stk2 & out1 & Hp & H1 & H2 & H3).
           rewrite (pop_until_open_frame _ ("(" :: below) _ _ _ Hp), Hp. simpl.
           apply IH; auto. now rewrite H3.
Qed.

Lemma pop_until_open_all (opStack : list string) :
  forall out,
    stackOK opStack = true -> parenDepth opStack = 0 ->
    Parser.pop_until_open (opStack ++ ["("]) out
    = Ok (["("], (out ++ map TStr opStack)%list)
    /\ Parser.drain opStack out = Ok (out ++ map TStr opStack)%list.
Proof.
  induction opStack as [|o rest IH]; intros out Hs Hd.
  - simpl. now rewrite app_nil_r.
  - simpl in Hs. apply andb_true_iff in Hs as [Ho Hrest].
    unfold parenDepth in Hd. simpl in Hd.
    destruct (o =? "(") eqn:Hp; [discriminate|].
    rewrite orb_false_r in Ho.
    destruct (isVaildOp_not_paren o Ho) as (Hf & _ & _).
    cbn [Parser.pop_until_open Parser.drain app map].
    rewrite Hp, Hf. simpl negb. cbv iota.
    destruct (IH (out ++ [TStr o])%list Hrest Hd) as [-> ->].
    now rewrite <- !app_assoc.
Qed.

(** The tokens of a string do not depend on the position counted from
    nor on the tokens pushed before. *)
Lemma tokenize_from_shift (s : string) :
  (forall i res out,
      Parser.tokenize_from s i res = Ok out ->
      exists toks, out = (res ++ toks)%list
        /\ forall i' res', Parser.tokenize_from s i' res' = Ok (res' ++ toks)%list)
  /\ (forall res num j out,
      Parser.scan res num s j = Ok out ->
      exists toks, out = (res ++ toks)%list
        /\ forall j' res', Parser.scan res' num s j' = Ok (res' ++ toks)%list).
Proof.
  induction s as [|c s [IHt IHs]].
  - split.
    + intros i res out H. inversion H; subst. exists [].
      split; [now rewrite app_nil_r|].
      intros i' res'. now rewrite app_nil_r.
    + intros res num j out H. rewrite scan_nil in H. inversion H; subst.
      exists [TNum (JS.parseFloat num)]. split; [reflexivity|].
      intros j' res'. apply scan_nil.
  - assert (Ht : forall i res out,
               Parser.tokenize_from (String c s) i res = Ok out ->
               exists toks, out = (res ++ toks)%list
                 /\ forall i' res',
                      Parser.tokenize_from (String c s) i' res'
                      = Ok (res' ++ toks)%list).
    { intros i res out H. rewrite tokenize_from_cons in H.
      destruct (Parser.isNumberChar c) eqn:Hn.
      - destruct (IHs _ _ _ _ H) as (toks & -> & Hall).
        exists toks. split; [reflexivity|].
        intros i' res'. rewrite tokenize_from_cons, Hn. apply Hall.
      - destruct (Parser.isSymbolChar c) eqn:Hs; [|discriminate].
        destruct (IHt _ _ _ H) as (toks & -> & Hall).
        exists (TStr (String c EmptyString) :: toks).
        split; [now rewrite <- app_assoc|].
        intros i' res'. rewrite tokenize_from_cons, Hn, Hs, Hall.
        now rewrite <- app_assoc. }
    split; [exact Ht|].
    intros res num j out H. rewrite scan_cons in H.
    destruct (Parser.isNumberChar c) eqn:Hn.
    + destruct (IHs _ _ _ _ H) as (toks & -> & Hall).
      exists toks. split; [reflexivity|].
      intros j' res'. rewrite scan_cons, Hn. apply Hall.
    + destruct (Ht _ _ _ H) as (toks & -> & Hall).
      exists (TNum (JS.parseFloat num) :: toks).
      split; [now rewrite <- app_assoc|].
      intros j' res'. rewrite scan_cons, Hn, Hall.
      now rewrite <- app_assoc.
Qed.

Lemma tokenize_parenthesized (s : string) (tokens : list Token) :
  Parser.tokenize s = Ok tokens ->
  Parser.tokenize (String "(" (s ++ ")"))
  = Ok (TStr "(" :: tokens ++ [TStr ")"])%list.
Proof.
  unfold Parser.tokenize. intros Ht.
  rewrite tokenize_symbol by reflexivity.
  destruct (proj1 (tokenize_from_shift s) 0 [] tokens Ht) as (toks & E & Hall).
  simpl in E. subst toks.
  specialize (Hall 1 [TStr "("]).
  destruct (proj1 (tokenize_from_app s ")" eq_refl) 1 [TStr "("] _ Hall)
    as [j Hj].
  simpl app at 1. rewrite Hj.
  rewrite tokenize_symbol by reflexivity. reflexivity.
Qed.

Lemma toPostfix_parenthesized (tokens : list Token) :
  Forall (fun tk => tokenOK tk = true) tokens ->
  balancedTokens tokens 0 = true ->
  exists oq,
    Parser.toPostfix tokens = Ok oq
    /\ Parser.toPostfix (TStr "(" :: tokens ++ [TStr ")"]) = Ok oq.
Proof.
  intros Hok Hb.
  destruct (shunt_frame tokens [] [] [] Hok eq_refl eq_refl Hb)
    as (stk' & out' & Hsh & Hfr & H1 & H2 & H3).
  destruct (pop_until_open_all stk' out' H1 H3) as [Hpop Hdr].
  exists (out' ++ map TStr stk')%list. unfold Parser.toPostfix. split.
  - rewrite Hsh. simpl. exact Hdr.
  - cbn [Parser.shunt]. unfold Parser.shunt_step at 1.
    change (Parser.isVaildOp "(") with false. cbv iota.
    change ("(" =? "(") with true. cbv iota. cbn [bind fst snd].
    rewrite shunt_app. simpl app in Hfr. rewrite Hfr.
    cbn [bind fst snd Parser.shunt]. unfold Parser.shunt_step.
    change (Parser.isVaildOp ")") with false. cbv iota.
    change (")" =? "(") with false. cbv iota.
    rewrite Hpop. reflexivity.
Qed.

(** X13. Parentheses around a whole input change nothing: when [parse]
    succeeds on an input, it succeeds with the same tree on the input
    within a pair of parentheses. *)
Theorem parse_parenthesized :
  forall (expr : string) (t : ASTNode),
    Parser.parse expr = Ok t ->
    Parser.parse ("(" ++ expr ++ ")") = Ok t.
Proof.
  intros expr t H.
  destruct (Parser.isValid (JS.removeWhiteSpace expr)) eqn:Hv;
    [|unfold Parser.parse in H; rewrite Hv in H; discriminate].
  destruct (Parser.tokenize (JS.removeWhiteSpace expr)) as [tokens|err] eqn:Ht;
    [|unfold Parser.parse in H; rewrite Hv, Ht in H; discriminate].
  pose proof (tokenize_tokenOK _ _ Ht) as Hok.
  destruct (proj1 (tokens_balanced _) 0 [] tokens Ht) as (toks & E & Hb).
  simpl in E. subst toks.
  specialize (Hb [] (Forall_nil _)). simpl in Hb.
  assert (Hbal : balancedTokens tokens 0 = true)
    by (unfold Parser.isValid in Hv; now rewrite <- Hb).
  destruct (toPostfix_parenthesized tokens Hok Hbal) as (oq & Hp & Hp').
  unfold Parser.parse in H. rewrite Hv, Ht in H. simpl in H.
  rewrite Hp in H. simpl in H.
  unfold Parser.parse.
  replace (JS.removeWhiteSpace ("(" ++ expr ++ ")"))
    with (String "(" (JS.removeWhiteSpace expr ++ ")"))
    by (simpl; now rewrite removeWhiteSpace_app).
  assert (Hv' : Parser.isValid (String "(" (JS.removeWhiteSpace expr ++ ")"))
                = true).
  { pose proof (isValid_loop_app _ [] Hv ")" ["("%char]) as Hw.
    unfold Parser.isValid. simpl in *. exact Hw. }
  rewrite Hv', (tokenize_parenthesized _ _ Ht). simpl.
  rewrite Hp'. exact H.
Qed.

Lemma parse_parenthesized_witness :
  Parser.parse ("(" ++ "2 * (3 + 4)" ++ ")")
  = Ok (BinaryOperationNode
          (NumberNode (JS.of_Z 2))
          (BinaryOperationNode (NumberNode (JS.of_Z 3))
                               (NumberNode (JS.of_Z 4)) "+") "*").
Proof.
  exact (parse_parenthesized "2 * (3 + 4)" _ eq_refl).
Defined.

(** X14. The tokenizer works piece by piece: the tokens of two strings
    put end to end are the tokens of the first followed by those of the
    second, provided the second does not start with a digit or a point
    (which would continue a number of the first). *)
Theorem tokenize_app :
  forall (a b : string) (ta tb : list Token),
    Parser.tokenize a = Ok ta -> Parser.tokenize b = Ok tb ->
    startsClean b = true ->
    Parser.tokenize (a ++ b) = Ok (ta ++ tb)%list.
Proof.
  unfold Parser.tokenize. intros a b ta tb Ha Hb Hclean.
  destruct (proj1 (tokenize_from_app a b Hclean) 0 [] ta Ha) as [j ->].
  destruct (proj1 (tokenize_from_shift b) 0 [] tb Hb) as (toks & E & Hall).
  simpl in E. subst toks. apply Hall.
Qed.

Lemma tokenize_app_witness :
  Parser.tokenize ("12.5" ++ "*(3") = Ok ([TNum (JS.parseFloat "12.5")]
                                          ++ [TStr "*"; TStr "("; TNum (JS.parseFloat "3")])%list.
Proof.
  exact (tokenize_app "12.5" "*(3" _ _ eq_refl eq_refl eq_refl).
Defined.
